(** * The [Throttle] decorator of [python_mpd/utils.py]

    A shallow embedding of the decorator class [Throttle] and of the closure
    [wrapper] it builds, followed by the properties of the throttling
    policy: the timing gate, forced calls and their secondary limit, the
    lock discipline, the per-host registry and what happens with coroutine
    functions.

    Conventions of the embedding.
    - [datetime] values and [timedelta] values are integers counting
      microseconds (the resolution of both Python types), so
      [datetime.now() - throttle[1] > self.min_time] is a comparison in [Z].
    - [id(x)] is a [positive]; an object is identified with its identity.
    - [host._throttle] is a dictionary from [id(self)] to the two element
      list [[threading.Lock(), None]]; the list is the record [entry].
    - the interpreter state is passed explicitly; the real method reads and
      writes the clock and the rest of the program's state ([world]) but
      never the [_throttle] attributes. *)

From Stdlib Require Import ZArith Lia Ascii String.
From stdpp Require Import base option list strings gmap.

Local Open Scope Z_scope.

(** ** Python values *)

Definition obj := positive.
Bind Scope positive_scope with obj.

Inductive pyval :=
| PNone
| PBool (b : bool)
| PInt (z : Z)
| PStr (s : string)
| PObj (o : obj)          (* an instance, a function: anything with a __dict__ *)
| PCoro (c : nat).        (* a coroutine object, by its index in [coros] *)

(** Truth value testing, as [or] and [not] apply it. *)
Definition truthy (v : pyval) : bool :=
  match v with
  | PNone => false
  | PBool b => b
  | PInt z => negb (z =? 0)
  | PStr s => negb (String.eqb s "")
  | PObj _ => true
  | PCoro _ => true
  end.

Inductive exn :=
| AttributeError          (* host._throttle = {} on a value without __dict__ *)
| Failure (code : Z).     (* whatever the real method raises *)

Inductive outcome :=
| Return (v : pyval)
| Raise (e : exn).

(** ** The throttle entry [[threading.Lock(), None]] *)

Record entry := Entry {
  lock : bool;              (* throttle[0]: true while the lock is held *)
  last : option Z           (* throttle[1]: None, or a datetime *)
}.

Definition fresh_entry : entry := Entry false None.

Definition acquired (e : entry) : entry := Entry true (last e).
Definition released (e : entry) : entry := Entry false (last e).
Definition stamped (now : Z) (e : entry) : entry := Entry (lock e) (Some now).

(** ** Coroutine objects

    Calling a coroutine function runs none of its body: it builds a coroutine
    object.  The body runs later, when the event loop resumes the object, one
    piece (the code between two awaits) at a time. *)

Record coroutine := Coroutine {
  co_real : bool;           (* false for the stand-in [throttled_value] *)
  co_len : nat;             (* number of pieces of the body *)
  co_pc : nat               (* pieces already run *)
}.

Definition in_progress (c : coroutine) : bool :=
  co_real c && (0 <? co_pc c)%nat && (co_pc c <? co_len c)%nat.

(** ** [__qualname__] and the test [is_func] *)

Fixpoint starts_with (p s : list ascii) : bool :=
  match p, s with
  | [], _ => true
  | _ :: _, [] => false
  | a :: p', b :: s' => if Ascii.eqb a b then starts_with p' s' else false
  end.

(** The last element of [s.split(sep)]; [skip] counts the characters of a
    separator just matched that are still to be passed over. *)
Fixpoint split_last (sep s : list ascii) (skip : nat) (piece : list ascii)
  : list ascii :=
  match s with
  | [] => piece
  | c :: s' =>
      match skip with
      | S k => split_last sep s' k piece
      | O =>
          if starts_with sep s
          then split_last sep s' (length sep - 1) []
          else split_last sep s' 0 (piece ++ [c])
      end
  end.

Definition has_dot (s : list ascii) : bool :=
  existsb (Ascii.eqb "."%char) s.

(** ['.' not in qualname.split('.<locals>.')[-1]] *)
Definition plain_function_name (qualname : string) : bool :=
  negb (has_dot (split_last (list_ascii_of_string ".<locals>.")
                            (list_ascii_of_string qualname) 0 [])).

(** ** The class [Throttle] *)

Record Throttle := MkThrottle {
  self_id : obj;                    (* id(self) *)
  min_time : Z;
  limit_no_throttle : option Z
}.

(** [Throttle.__init__]; [ident] is the identity of the new object. *)
Definition Throttle_init (ident : obj) (min_time : Z)
    (limit_no_throttle : option Z) : Throttle :=
  MkThrottle ident min_time limit_no_throttle.

Section Interpreter.

(** The part of the program's state the real methods work on. *)
Context {W : Type}.

Record state := State {
  clock : Z;                                  (* what datetime.now() returns *)
  world : W;
  throttles : gmap obj (gmap obj entry);      (* o ↦ o._throttle, where set *)
  attrs : gmap (obj * string) pyval;          (* every other attribute *)
  coros : list coroutine;                     (* coroutine objects created *)
  ran : list (list pyval * gmap string pyval) (* ghost: calls of real methods *)
}.

Definition set_throttles (t : gmap obj (gmap obj entry)) (st : state) : state :=
  State (clock st) (world st) t (attrs st) (coros st) (ran st).

Definition set_clock (now : Z) (st : state) : state :=
  State now (world st) (throttles st) (attrs st) (coros st) (ran st).

Definition set_world (w : W) (st : state) : state :=
  State (clock st) w (throttles st) (attrs st) (coros st) (ran st).

Definition new_coroutine (c : coroutine) (st : state) : state :=
  State (clock st) (world st) (throttles st) (attrs st) (coros st ++ [c]) (ran st).

Definition log_call (args : list pyval) (kwargs : gmap string pyval)
    (st : state) : state :=
  State (clock st) (world st) (throttles st) (attrs st) (coros st)
        (ran st ++ [(args, kwargs)]).

(** [host._throttle[k]] when both the attribute and the key exist. *)
Definition get_entry (host k : obj) (st : state) : option entry :=
  throttles st !! host ≫= (λ d : gmap obj entry, d !! k).

(** The entry a call finds after the lazy creation of lines 74-79. *)
Definition entry_at (host k : obj) (st : state) : entry :=
  default fresh_entry (get_entry host k st).

(** In place update of the list [host._throttle[k]]. *)
Definition upd_entry (host k : obj) (f : entry → entry) (st : state) : state :=
  set_throttles (alter (alter f k) host (throttles st)) st.

(** Attribute lookup [getattr(o, name)], [None] when [hasattr] is false. *)
Inductive attrval :=
| ADict (d : gmap obj entry)
| AVal (v : pyval).

Definition getattr (o : obj) (name : string) (st : state) : option attrval :=
  if String.eqb name "_throttle"
  then ADict <$> throttles st !! o
  else AVal <$> attrs st !! (o, name).

(** ** Methods *)

Inductive body :=
| SyncBody (run : list pyval → gmap string pyval → Z → W → outcome * Z * W)
| AsyncBody (pieces : nat).

Record pymethod := PyMethod {
  m_self : option obj;        (* __self__, for a bound method *)
  m_qualname : string;        (* __qualname__ *)
  m_body : body
}.

(** Calling a real method with positional and keyword arguments.  A plain function runs to
    completion, taking the clock from its start to its end; a coroutine
    function returns a new coroutine object at once. *)
Definition invoke (m : pymethod) (args : list pyval)
    (kwargs : gmap string pyval) (st : state) : outcome * state :=
  let st := log_call args kwargs st in
  match m_body m with
  | SyncBody run =>
      let '(r, now, w) := run args kwargs (clock st) (world st) in
      (r, set_world w (set_clock now st))
  | AsyncBody pieces =>
      (Return (PCoro (length (coros st))),
       new_coroutine (Coroutine true pieces 0) st)
  end.

(** ** [Throttle.__call__] *)

(** The two definitions of [throttled_value] (lines 35-42). *)
Definition throttled_value (is_async : bool) (st : state) : outcome * state :=
  if is_async
  then (Return (PCoro (length (coros st))),
        new_coroutine (Coroutine false 1 0) st)
  else (Return PNone, st).

(** Lines 67-72. *)
Definition resolve_host (method_self : option obj) (is_func : bool)
    (wrapper_id : obj) (args : list pyval) : pyval :=
  match method_self with
  | Some o => PObj o
  | None =>
      if is_func then PObj wrapper_id
      else match args with
           | a :: _ => a
           | [] => PObj wrapper_id
           end
  end.

(** Lines 74-75. *)
Definition ensure_dict (host : obj) (st : state) : state :=
  match throttles st !! host with
  | Some _ => st
  | None => set_throttles (<[host := ∅]> (throttles st)) st
  end.

(** Lines 77-78. *)
Definition ensure_entry (host k : obj) (st : state) : state :=
  match get_entry host k st with
  | Some _ => st
  | None =>
      set_throttles (alter (λ d : gmap obj entry, <[k := fresh_entry]> d)
                           host (throttles st)) st
  end.

Definition no_throttle (kwargs : gmap string pyval) : pyval :=
  default (PBool false) (kwargs !! "no_throttle"%string).

(** The state of lines 74-79, once the dictionary and the entry exist. *)
Definition prepared (host k : obj) (st : state) : state :=
  ensure_entry host k (ensure_dict host st).

(** The test of line 88 together with [force] of line 85. *)
Definition gate_open (self : Throttle) (kwargs : gmap string pyval)
    (e : entry) (now : Z) : bool :=
  truthy (no_throttle kwargs)
  || negb (bool_decide (is_Some (last e)))
  || match last e with
     | Some t => min_time self <? now - t
     | None => false
     end.

(** The closure [wrapper] (lines 61-95).  [method] is the callable the
    closure captured, [method_self] its [__self__] when it has one. *)
Definition wrapper (self : Throttle) (is_async is_func : bool)
    (method_self : option obj)
    (method : list pyval → gmap string pyval → state → outcome * state)
    (wrapper_id : obj)
    (args : list pyval) (kwargs : gmap string pyval) (st : state)
  : outcome * state :=
  match resolve_host method_self is_func wrapper_id args with
  | PObj host =>
      let k := self_id self in
      let st := ensure_entry host k (ensure_dict host st) in
      let throttle := entry_at host k st in
      if lock throttle then throttled_value is_async st
      else
        let st := upd_entry host k acquired st in
        let force := truthy (no_throttle kwargs)
                     || negb (bool_decide (is_Some (last throttle))) in
        let kwargs := delete "no_throttle"%string kwargs in
        let go := force
                  || match last throttle with
                     | Some t => min_time self <? clock st - t
                     | None => false
                     end in
        if go then
          match method args kwargs st with
          | (Return result, st) =>
              let st := upd_entry host k (stamped (clock st)) st in
              (Return result, upd_entry host k released st)
          | (Raise e, st) => (Raise e, upd_entry host k released st)
          end
        else
          let '(r, st) := throttled_value is_async st in
          (r, upd_entry host k released st)
  | _ => (Raise AttributeError, st)
  end.

(** What a decorated name can be bound to. *)
Inductive callable :=
| Method (m : pymethod)
| Wrapper (wrapper_id : obj) (self : Throttle) (is_async is_func : bool)
          (method : callable).

(** [getattr(c, '__self__')]: a function object has none. *)
Definition callable_self (c : callable) : option obj :=
  match c with
  | Method m => m_self m
  | Wrapper _ _ _ _ _ => None
  end.

(** [c.__qualname__]; [functools.wraps] copies it to the wrapper. *)
Fixpoint callable_qualname (c : callable) : string :=
  match c with
  | Method m => m_qualname m
  | Wrapper _ _ _ _ method => callable_qualname method
  end.

(** [asyncio.iscoroutinefunction(c)]; [wrapper] is a plain [def]. *)
Definition iscoroutinefunction (c : callable) : bool :=
  match c with
  | Method m => match m_body m with AsyncBody _ => true | SyncBody _ => false end
  | Wrapper _ _ _ _ _ => false
  end.

Fixpoint call (c : callable) (args : list pyval) (kwargs : gmap string pyval)
    (st : state) : outcome * state :=
  match c with
  | Method m => invoke m args kwargs st
  | Wrapper wrapper_id self is_async is_func method =>
      wrapper self is_async is_func (callable_self method) (call method)
              wrapper_id args kwargs st
  end.

(** Lines 57-97: the test [is_func] and the closure, for a [method] already
    chosen; [wrapper_id] is the identity of the new function object. *)
Definition make_wrapper (self : Throttle) (is_async : bool) (method : callable)
    (wrapper_id : obj) : callable :=
  let is_func := negb (bool_decide (is_Some (callable_self method)))
                 && plain_function_name (callable_qualname method) in
  Wrapper wrapper_id self is_async is_func method.

(** [Throttle.__call__].  The interpreter gives every new object an identity
    not in use; [next] is the first of them.  With a second interval, the
    nested [Throttle(self.limit_no_throttle)] is created at [next], its
    wrapper at [next + 1] and the outer wrapper at [next + 2]. *)
Definition Throttle_call (self : Throttle) (method : callable) (next : obj)
  : callable :=
  let is_async := iscoroutinefunction method in
  match limit_no_throttle self with
  | Some limit =>
      let nested := Throttle_init next limit None in
      let method :=
        make_wrapper nested (iscoroutinefunction method) method (next + 1)%positive in
      make_wrapper self is_async method (next + 2)%positive
  | None => make_wrapper self is_async method next
  end.

(** ** The event loop

    Resuming the coroutine object [c] runs the next piece of its body, up to
    the next await or to the end. *)
Definition resume (c : nat) (st : state) : state :=
  match coros st !! c with
  | Some co =>
      if (co_pc co <? co_len co)%nat
      then State (clock st) (world st) (throttles st) (attrs st)
                 (<[c := Coroutine (co_real co) (co_len co) (S (co_pc co))]>
                    (coros st))
                 (ran st)
      else st
  | None => st
  end.

(** The body of coroutine [c] has begun and has not ended. *)
Definition executing (c : nat) (st : state) : bool :=
  match coros st !! c with
  | Some co => in_progress co
  | None => false
  end.

(** ** Vocabulary of the statements *)

(** The object whose [_throttle] the outermost wrapper of [c] uses for a
    call with [args]; [None] when that value cannot carry attributes. *)
Definition top_host (c : callable) (args : list pyval) : option obj :=
  match c with
  | Wrapper wrapper_id _ _ is_func method =>
      match resolve_host (callable_self method) is_func wrapper_id args with
      | PObj h => Some h
      | _ => None
      end
  | Method _ => None
  end.

(** The callable a wrapper closes over. *)
Definition wrapped (c : callable) : callable :=
  match c with
  | Wrapper _ _ _ _ method => method
  | Method _ => c
  end.

(** The entries a call of [c] with [args] can reach, outermost first: for
    each wrapper the host it resolves and the key [id(self)] it uses. *)
Fixpoint layers (c : callable) (args : list pyval) : list (obj * obj) :=
  match c with
  | Wrapper _ self _ _ method =>
      match top_host c args with
      | Some h => (h, self_id self) :: layers method args
      | None => []
      end
  | Method _ => []
  end.

(** The interval [interval] has passed since the time recorded in [e], or
    nothing is recorded. *)
Definition elapsed (interval : Z) (e : entry) (now : Z) : bool :=
  match last e with
  | Some t => interval <? now - t
  | None => true
  end.

(** The real method at the bottom of a stack of wrappers. *)
Fixpoint real_method (c : callable) : pymethod :=
  match c with
  | Method m => m
  | Wrapper _ _ _ _ method => real_method method
  end.

(** The keyword arguments the real method receives: every wrapper pops
    [no_throttle] before it delegates. *)
Definition stripped (c : callable) (kwargs : gmap string pyval)
  : gmap string pyval :=
  match c with
  | Method _ => kwargs
  | Wrapper _ _ _ _ _ => delete "no_throttle"%string kwargs
  end.

(** Every wrapper of [c] finds a host, takes its lock and lets the call
    through: the inner wrappers are asked in the state the outer ones leave,
    with their locks held. *)
Fixpoint passes (c : callable) (args : list pyval)
    (kwargs : gmap string pyval) (st : state) : bool :=
  match c with
  | Method _ => true
  | Wrapper _ self _ _ method =>
      match top_host c args with
      | Some h =>
          let e := entry_at h (self_id self) st in
          negb (lock e) && gate_open self kwargs e (clock st)
          && passes method args (delete "no_throttle"%string kwargs)
                    (upd_entry h (self_id self) acquired
                               (prepared h (self_id self) st))
      | None => false
      end
  end.

(** Two states that differ at most in their [_throttle] attributes. *)
Definition same_program (st st' : state) : Prop :=
  clock st = clock st' ∧ world st = world st' ∧ attrs st = attrs st'
  ∧ coros st = coros st' ∧ ran st = ran st'.

End Interpreter.

Arguments state : clear implicits.
Arguments body : clear implicits.
Arguments pymethod : clear implicits.
Arguments callable : clear implicits.

(** ** A small program to run the model on

    [update] is a method of a class, so every instance it is called on is a
    host of its own.  It takes three time units and returns 7. *)

Definition update : pymethod unit :=
  PyMethod None "MpdDevice.update"
    (SyncBody (λ _ _ now w, (Return (PInt 7), now + 3, w))).

(** A method that fails with error 5 after two time units. *)
Definition broken : pymethod unit :=
  PyMethod None "MpdDevice.connect"
    (SyncBody (λ _ _ now w, (Raise (Failure 5), now + 2, w))).

(** A coroutine method whose body has one await, that is two pieces. *)
Definition async_update : pymethod unit :=
  PyMethod None "MpdDevice.async_update" (AsyncBody 2).

(** [Throttle(10)] and [Throttle(10, 100)], created as objects 1 and 2. *)
Definition every_10 : Throttle := Throttle_init 1 10 None.
Definition every_10_forced_100 : Throttle := Throttle_init 2 10 (Some 100).

(** Two instances of the class. *)
Definition device_a : obj := 50%positive.
Definition device_b : obj := 51%positive.

(** The interpreter at time 0, no attribute set, nothing run yet. *)
Definition boot : state unit := State 0 tt ∅ ∅ [] [].

Definition forced : gmap string pyval :=
  {[ "no_throttle"%string := PBool true ]}.

(** The class body: [update] under [@Throttle(10)], [update] under
    [@Throttle(10, 100)] and the coroutine method under [@Throttle(10)].
    Objects 1 and 2 exist; each decoration takes the next free identities. *)
Definition update_10 : callable unit :=
  Throttle_call every_10 (Method update) 3.
Definition update_10_100 : callable unit :=
  Throttle_call every_10_forced_100 (Method update) 4.
Definition connect_10 : callable unit :=
  Throttle_call every_10 (Method broken) 7.
Definition async_update_10 : callable unit :=
  Throttle_call every_10 (Method async_update) 8.

(** More of the small program: a function that is no method, and [update]
    bound to [device_a], each under a [Throttle] of its own decoration. *)
Definition poll : pymethod unit :=
  PyMethod None "poll" (SyncBody (λ _ _ now w, (Return (PInt 1), now + 1, w))).
Definition bound_update : pymethod unit :=
  PyMethod (Some device_a) "MpdDevice.update"
    (SyncBody (λ _ _ now w, (Return (PInt 7), now + 3, w))).
Definition poll_10 : callable unit :=
  Throttle_call every_10 (Method poll) 9.
Definition bound_update_10 : callable unit :=
  Throttle_call every_10 (Method bound_update) 10.
Definition bound_update_10_100 : callable unit :=
  Throttle_call every_10_forced_100 (Method bound_update) 11.

(** * [xiaomi_miio_smart_bulb/main.py]: the time of the delayed turn off

    [datetime] and [timedelta] values count microseconds, as above. *)

Module Bulb.

Definition DELAYED_TURN_OFF_MAX_DEVIATION_SECONDS : Z := 4.

(** [timedelta(seconds=n)] *)
Definition seconds (n : Z) : Z := n * 1000000.

(** [t.replace(microsecond=0)] *)
Definition replace_microsecond_0 (t : Z) : Z := t - t mod 1000000.

(** [XiaomiPhilipsBulb.delayed_turn_off_timestamp]; [None] is Python's
    [None], for the countdown, the previous time and the result. *)
Definition delayed_turn_off_timestamp (countdown : option Z) (current : Z)
    (previous : option Z) : option Z :=
  match countdown with
  | Some n =>
      if 0 <? n then
        let new := replace_microsecond_0 current + seconds n in
        match previous with
        | None => Some new
        | Some previous =>
            let lower := seconds (- DELAYED_TURN_OFF_MAX_DEVIATION_SECONDS) in
            let upper := seconds DELAYED_TURN_OFF_MAX_DEVIATION_SECONDS in
            let diff := previous - new in
            if (lower <? diff) && (diff <? upper) then Some previous
            else Some new
        end
      else None
  | None => None
  end.

End Bulb.

(** * [wifi_presence_detection/main.py]: the nmap scanner *)

Module Presence.

(** [Device = namedtuple("Device", ["mac", "name", "ip", "last_update"])] *)
Record Device := MkDevice {
  mac : string;
  name : string;
  ip : string;
  last_update : Z
}.

(** What [PortScanner.scan] reports for one address: [info["status"]["state"]],
    the names in [info["hostnames"]] and [info["addresses"].get("mac")]. *)
Record host_info := HostInfo {
  status_state : string;
  hostnames : list string;
  addresses_mac : option string
}.

(** The attributes [NmapDeviceScanner.__init__] sets. *)
Record NmapDeviceScanner := Scanner {
  last_results : list Device;
  hosts : list string;
  exclude : list string;
  _options : string;
  home_interval : Z
}.

(** [NmapDeviceScanner.get_device_name] *)
Definition get_device_name (self : NmapDeviceScanner) (device : string)
  : option string :=
  let filter_named :=
    map name (List.filter (λ result, String.eqb (mac result) device)
                          (last_results self)) in
  match filter_named with
  | first :: _ => Some first
  | [] => None
  end.

(** [NmapDeviceScanner.get_extra_attributes]: the dictionary [{"ip": ...}] *)
Definition get_extra_attributes (self : NmapDeviceScanner) (device : string)
  : gmap string (option string) :=
  let filter_ip :=
    match List.filter (λ result, String.eqb (mac result) device)
                      (last_results self) with
    | result :: _ => Some (ip result)
    | [] => None
    end in
  {[ "ip"%string := filter_ip ]}.

(** Lines 184-193 of [_update_info]: the results kept from the last scans
    and the addresses left out of this one; [now] is [datetime.now()]. *)
Definition kept_and_excluded (self : NmapDeviceScanner) (now : Z)
  : list Device * list string :=
  if negb (home_interval self =? 0) then
    let boundary := now - home_interval self in
    let last_results :=
      List.filter (λ device, boundary <? last_update device)
                  (last_results self) in
    match last_results with
    | _ :: _ => (last_results, exclude self ++ map ip last_results)
    | [] => (last_results, exclude self)
    end
  else ([], exclude self).

(** Lines 182 and 194-195: the [arguments] handed to [scanner.scan]. *)
Definition scan_arguments (self : NmapDeviceScanner) (now : Z) : string :=
  match snd (kept_and_excluded self now) with
  | _ :: _ =>
      String.append (_options self)
        (String.append " --exclude "
           (String.concat "," (snd (kept_and_excluded self now))))
  | [] => _options self
  end.

(** Lines 203-213: one [Device] for each address that is up and has a MAC
    address; [upper] is [str.upper]. *)
Definition found_devices (upper : string → string)
    (result : list (string * host_info)) (now : Z) : list Device :=
  flat_map (λ '(ipv4, info),
              if negb (String.eqb (status_state info) "up") then []
              else
                let name := match hostnames info with
                            | first :: _ => first
                            | [] => ipv4
                            end in
                match addresses_mac info with
                | None => []
                | Some mac => [MkDevice (upper mac) name ipv4 now]
                end)
           result.

(** [NmapDeviceScanner._update_info].  [scan hosts arguments] is
    [scanner.scan], [None] when it raises [PortScannerError]; [now1] and
    [now2] are the two readings of [datetime.now()]. *)
Definition _update_info (upper : string → string)
    (scan : string → string → option (list (string * host_info)))
    (now1 now2 : Z) (self : NmapDeviceScanner) : bool * NmapDeviceScanner :=
  let last_results := fst (kept_and_excluded self now1) in
  match scan (String.concat " " (hosts self)) (scan_arguments self now1) with
  | None => (false, self)
  | Some result =>
      (true,
       Scanner (last_results ++ found_devices upper result now2)
               (hosts self) (exclude self) (_options self)
               (home_interval self))
  end.

(** [NmapDeviceScanner.scan_devices] *)
Definition scan_devices (upper : string → string)
    (scan : string → string → option (list (string * host_info)))
    (now1 now2 : Z) (self : NmapDeviceScanner)
  : list string * NmapDeviceScanner :=
  let self := snd (_update_info upper scan now1 now2 self) in
  (map mac (last_results self), self).

End Presence.

(** * [wifi_rgb_led_strip/main.py]: effects and connection of the light *)

Module FluxLed.

Definition EFFECT_CUSTOM_CODE : Z := 0x60.

(** The dictionary [EFFECT_MAP], in the order it is written. *)
Definition EFFECT_MAP : list (string * Z) :=
  [ ("colorloop", 0x25); ("red_fade", 0x26); ("green_fade", 0x27);
    ("blue_fade", 0x28); ("yellow_fade", 0x29); ("cyan_fade", 0x2A);
    ("purple_fade", 0x2B); ("white_fade", 0x2C); ("rg_cross_fade", 0x2D);
    ("rb_cross_fade", 0x2E); ("gb_cross_fade", 0x2F); ("colorstrobe", 0x30);
    ("red_strobe", 0x31); ("green_strobe", 0x32); ("blue_strobe", 0x33);
    ("yellow_strobe", 0x34); ("cyan_strobe", 0x35); ("purple_strobe", 0x36);
    ("white_strobe", 0x37); ("colorjump", 0x38) ]%string.

(** [EFFECT_MAP[effect]], [None] when [effect not in EFFECT_MAP]; this is the
    code [turn_on] hands to [setPresetPattern]. *)
Definition effect_code (effect : string) : option Z :=
  snd <$> List.find (λ item, String.eqb (fst item) effect) EFFECT_MAP.

(** The property [FluxLight.effect], from [self._bulb.raw_state[3]]. *)
Definition effect (current_mode : Z) : option string :=
  if current_mode =? EFFECT_CUSTOM_CODE then Some "custom"%string
  else fst <$> List.find (λ item, current_mode =? snd item) EFFECT_MAP.

Section Light.

(** The bulb object of [flux_led] and the three things done with it. *)
Context {B : Type}.
Variable rgbwcapable : B → bool.
Variable setProtocol : string → B → B.
Variable update_state : B → B.

(** The attributes of [FluxLight] that [update] reads or writes. *)
Record FluxLight := Light {
  _protocol : option string;
  _mode : option string;
  _bulb : option B;
  _error_reported : bool
}.

(** [FluxLight.__init__] *)
Definition init (protocol mode : option string) : FluxLight :=
  Light protocol mode None false.

(** [not x] for an optional string: [None] and the empty string are false. *)
Definition is_set (x : option string) : bool :=
  match x with
  | Some s => negb (String.eqb s "")
  | None => false
  end.

(** [FluxLight._connect] once [flux_led.WifiLedBulb] has returned [bulb]. *)
Definition _connect (bulb : B) (self : FluxLight) : FluxLight :=
  let bulb := match _protocol self with
              | Some p => if is_set (Some p) then setProtocol p bulb else bulb
              | None => bulb
              end in
  let mode := if is_set (_mode self) then _mode self
              else if rgbwcapable bulb then Some "rgbw"%string
                   else Some "rgb"%string in
  Light (_protocol self) mode (Some bulb) (_error_reported self).

(** [FluxLight.update].  [connection] is what [flux_led.WifiLedBulb] does if
    it is called: a bulb, or [None] for [socket.error].  The result is the
    light and the number of warnings logged. *)
Definition update (connection : option B) (self : FluxLight)
  : FluxLight * nat :=
  match _bulb self with
  | Some bulb =>
      (Light (_protocol self) (_mode self) (Some (update_state bulb))
             (_error_reported self), 0%nat)
  | None =>
      match connection with
      | Some bulb =>
          let self := _connect bulb self in
          let self := Light (_protocol self) (_mode self) (_bulb self) false in
          (Light (_protocol self) (_mode self)
                 (update_state <$> _bulb self) (_error_reported self), 0%nat)
      | None =>
          let self := Light (_protocol self) (_mode self) None
                            (_error_reported self) in
          if negb (_error_reported self)
          then (Light (_protocol self) (_mode self) None true, 1%nat)
          else (self, 0%nat)
      end
  end.

(** A run of [update] calls, one connection outcome each; the warnings are
    added up. *)
Fixpoint updates (connections : list (option B)) (self : FluxLight)
  : FluxLight * nat :=
  match connections with
  | [] => (self, 0%nat)
  | connection :: rest =>
      let '(self, n) := update connection self in
      let '(self, n') := updates rest self in
      (self, (n + n')%nat)
  end.

End Light.

End FluxLed.

(** * Properties *)

Section Registry.

Context {W : Type}.
Implicit Types (st : state W) (h k : obj) (e : entry) (f : entry → entry).

(** ** The registry of entries *)

Lemma get_entry_upd h k f h' k' st :
  get_entry h' k' (upd_entry h k f st) =
  if decide (h = h' ∧ k = k') then f <$> get_entry h' k' st
  else get_entry h' k' st.
Proof.
  unfold get_entry, upd_entry; simpl.
  rewrite lookup_alter.
  destruct (decide (h = h')) as [->|Hh].
  - destruct (throttles st !! h') as [d|]; simpl.
    + rewrite lookup_alter.
      destruct (decide (k = k')) as [->|Hk].
      * rewrite decide_True by done. done.
      * rewrite decide_False by (intros [_ ?]; done). done.
    + case_decide; done.
  - rewrite decide_False by (intros [? _]; done). done.
Qed.

Lemma get_entry_upd_eq h k f st :
  get_entry h k (upd_entry h k f st) = f <$> get_entry h k st.
Proof. rewrite get_entry_upd, decide_True; done. Qed.

Lemma get_entry_upd_ne h k f h' k' st :
  h ≠ h' ∨ k ≠ k' → get_entry h' k' (upd_entry h k f st) = get_entry h' k' st.
Proof. intros Hne. rewrite get_entry_upd, decide_False; [done|]. intros [-> ->]. by destruct Hne. Qed.

Lemma get_entry_ensure_dict h h' k' st :
  get_entry h' k' (ensure_dict h st) = get_entry h' k' st.
Proof.
  unfold ensure_dict, get_entry.
  destruct (throttles st !! h) as [d|] eqn:Hd; [done|]; simpl.
  rewrite lookup_insert. case_decide; [subst; by rewrite Hd|done].
Qed.

Lemma get_entry_ensure_entry h k h' k' st :
  is_Some (throttles st !! h) →
  get_entry h' k' (ensure_entry h k st) =
  if decide (h = h' ∧ k = k') then Some (entry_at h k st)
  else get_entry h' k' st.
Proof.
  intros [d Hd]. unfold ensure_entry, entry_at.
  destruct (get_entry h k st) as [e|] eqn:He; simpl.
  - case_decide as Hc; [destruct Hc as [<- <-]; by rewrite He|done].
  - unfold get_entry in *; simpl. rewrite lookup_alter.
    destruct (decide (h = h')) as [<-|Hh].
    + rewrite Hd in *; simpl in *. rewrite lookup_insert.
      destruct (decide (k = k')) as [<-|Hk].
      * by rewrite decide_True.
      * by rewrite decide_False by (intros [_ ?]; done).
    + by rewrite decide_False by (intros [? _]; done).
Qed.

Lemma ensure_dict_is_Some h st : is_Some (throttles (ensure_dict h st) !! h).
Proof.
  unfold ensure_dict. destruct (throttles st !! h) eqn:Hd; simpl.
  - by rewrite Hd.
  - by rewrite lookup_insert_eq.
Qed.

Lemma get_entry_prepared h k h' k' st :
  get_entry h' k' (prepared h k st) =
  if decide (h = h' ∧ k = k') then Some (entry_at h k st)
  else get_entry h' k' st.
Proof.
  unfold prepared.
  rewrite get_entry_ensure_entry by apply ensure_dict_is_Some.
  unfold entry_at. by rewrite !get_entry_ensure_dict.
Qed.

Lemma entry_at_prepared h k h' k' st :
  entry_at h' k' (prepared h k st) = entry_at h' k' st.
Proof.
  unfold entry_at at 1. rewrite get_entry_prepared.
  case_decide as Hc; [destruct Hc as [<- <-]|]; done.
Qed.

Lemma prepared_present h k e st :
  get_entry h k st = Some e → prepared h k st = st.
Proof.
  intros He. unfold prepared, ensure_dict.
  assert (is_Some (throttles st !! h)) as [d Hd].
  { unfold get_entry in He. destruct (throttles st !! h); [eauto|done]. }
  rewrite Hd. unfold ensure_entry. by rewrite He.
Qed.

Lemma entry_at_upd h k f h' k' st :
  is_Some (get_entry h k st) →
  entry_at h' k' (upd_entry h k f st) =
  if decide (h = h' ∧ k = k') then f (entry_at h k st) else entry_at h' k' st.
Proof.
  intros [e He]. unfold entry_at. rewrite get_entry_upd.
  case_decide as Hc; [destruct Hc as [<- <-]; by rewrite He|done].
Qed.

Lemma alter_twice {K A} `{Countable K} (f g : A → A) (i : K) (m : gmap K A) :
  alter f i (alter g i m) = alter (f ∘ g) i m.
Proof.
  apply map_eq; intros j.
  destruct (decide (i = j)) as [<-|Hne].
  - rewrite !lookup_alter_eq. by destruct (m !! i).
  - by rewrite !lookup_alter_ne.
Qed.

(** Releasing what was acquired restores the registry. *)
Lemma upd_entry_compose h k f g st :
  upd_entry h k f (upd_entry h k g st) = upd_entry h k (f ∘ g) st.
Proof.
  unfold upd_entry, set_throttles; simpl. f_equal.
  rewrite alter_twice. apply alter_ext. intros d _; simpl.
  by rewrite alter_twice.
Qed.

Lemma upd_entry_id h k f st :
  (∀ e, get_entry h k st = Some e → f e = e) → upd_entry h k f st = st.
Proof.
  intros Hf. unfold upd_entry, set_throttles. destruct st as [c w t a co r]; simpl.
  f_equal. apply alter_id. intros d Hd. apply alter_id. intros e He.
  apply Hf. unfold get_entry; simpl. by rewrite Hd.
Qed.

Lemma release_acquire h k st :
  lock (entry_at h k st) = false →
  upd_entry h k released (upd_entry h k acquired st) = st.
Proof.
  intros Hl. rewrite upd_entry_compose. apply upd_entry_id.
  intros e He. unfold entry_at in Hl. rewrite He in Hl; simpl in Hl.
  destruct e as [l t]; simpl in *. by subst.
Qed.

End Registry.

(** ** One layer of [wrapper] *)

Section Layer.

Context {W : Type}.
Variables (self : Throttle) (is_async is_func : bool) (method_self : option obj).
Variable method : list pyval → gmap string pyval → state W → outcome * state W.
Variable wrapper_id : obj.

Implicit Types (st : state W) (h : obj) (args : list pyval)
  (kwargs : gmap string pyval).

Lemma throttled_value_upd h k f st :
  throttled_value is_async (upd_entry h k f st) =
  (fst (throttled_value is_async st),
   upd_entry h k f (snd (throttled_value is_async st))).
Proof. unfold throttled_value. by destruct is_async. Qed.

Lemma wrapper_no_dict args kwargs st :
  (∀ h, resolve_host method_self is_func wrapper_id args ≠ PObj h) →
  wrapper self is_async is_func method_self method wrapper_id args kwargs st = (Raise AttributeError, st).
Proof.
  intros Hh. unfold wrapper.
  destruct (resolve_host method_self is_func wrapper_id args); try done.
  by destruct (Hh o).
Qed.

Lemma wrapper_locked h args kwargs st :
  resolve_host method_self is_func wrapper_id args = PObj h →
  lock (entry_at h (self_id self) st) = true →
  wrapper self is_async is_func method_self method wrapper_id args kwargs st = throttled_value is_async st.
Proof.
  intros Hh Hl. unfold wrapper. rewrite Hh.
  fold (prepared h (self_id self) st). rewrite entry_at_prepared, Hl.
  destruct (get_entry h (self_id self) st) as [e|] eqn:He.
  - by rewrite (prepared_present _ _ _ _ He).
  - unfold entry_at in Hl. by rewrite He in Hl.
Qed.

Lemma wrapper_closed h args kwargs st :
  resolve_host method_self is_func wrapper_id args = PObj h →
  gate_open self kwargs (entry_at h (self_id self) st) (clock st) = false →
  wrapper self is_async is_func method_self method wrapper_id args kwargs st = throttled_value is_async st.
Proof.
  intros Hh Hg.
  destruct (lock (entry_at h (self_id self) st)) eqn:Hl;
    [by apply (wrapper_locked h)|].
  unfold wrapper. rewrite Hh.
  fold (prepared h (self_id self) st). rewrite entry_at_prepared, Hl.
  unfold gate_open in Hg.
  apply orb_false_elim in Hg as [Hg Ht]. apply orb_false_elim in Hg as [Hf Hn].
  assert (is_Some (get_entry h (self_id self) st)) as [e He].
  { unfold entry_at in Hn. destruct (get_entry h (self_id self) st); [eauto|].
    by vm_compute in Hn. }
  rewrite (prepared_present _ _ _ _ He).
  rewrite Hf, Hn; simpl.
  replace (clock (upd_entry h (self_id self) acquired st)) with (clock st) by done.
  rewrite Ht. rewrite throttled_value_upd.
  destruct (throttled_value is_async st) as [r st'] eqn:Htv; simpl.
  f_equal. apply release_acquire. unfold throttled_value in Htv.
  destruct is_async; inversion Htv; subst; exact Hl.
Qed.

Lemma wrapper_open h args kwargs st :
  resolve_host method_self is_func wrapper_id args = PObj h →
  lock (entry_at h (self_id self) st) = false →
  gate_open self kwargs (entry_at h (self_id self) st) (clock st) = true →
  wrapper self is_async is_func method_self method wrapper_id args kwargs st =
  match method args (delete "no_throttle"%string kwargs)
               (upd_entry h (self_id self) acquired
                          (prepared h (self_id self) st)) with
  | (Return result, st') =>
      (Return result,
       upd_entry h (self_id self) released
                 (upd_entry h (self_id self) (stamped (clock st')) st'))
  | (Raise e, st') => (Raise e, upd_entry h (self_id self) released st')
  end.
Proof.
  intros Hh Hl Hg. unfold wrapper. rewrite Hh.
  fold (prepared h (self_id self) st). rewrite entry_at_prepared, Hl.
  unfold gate_open in Hg.
  replace (clock (upd_entry h (self_id self) acquired
                            (prepared h (self_id self) st)))
    with (clock st).
  2:{ unfold prepared, ensure_entry, ensure_dict.
      destruct (throttles st !! h); simpl;
        match goal with |- context [get_entry ?a ?b ?c] =>
          destruct (get_entry a b c) end; done. }
  rewrite Hg. reflexivity.
Qed.

End Layer.

(** ** Real methods and decorated callables *)

Section Decorated.

Context {W : Type}.
Implicit Types (st : state W) (m : pymethod W) (c : callable W)
  (args : list pyval) (kwargs : gmap string pyval) (h k : obj).

Lemma invoke_set_throttles m args kwargs t st :
  invoke m args kwargs (set_throttles t st) =
  (fst (invoke m args kwargs st), set_throttles t (snd (invoke m args kwargs st))).
Proof.
  unfold invoke. destruct (m_body m) as [run|n]; simpl; [|done].
  by destruct (run args kwargs (clock st) (world st)) as [[r now] w].
Qed.

Lemma invoke_throttles m args kwargs st :
  throttles (snd (invoke m args kwargs st)) = throttles st.
Proof.
  unfold invoke. destruct (m_body m) as [run|n]; simpl; [|done].
  by destruct (run args kwargs (clock st) (world st)) as [[r now] w].
Qed.

Lemma invoke_ran m args kwargs st :
  ran (snd (invoke m args kwargs st)) = ran st ++ [(args, kwargs)].
Proof.
  unfold invoke. destruct (m_body m) as [run|n]; simpl; [|done].
  by destruct (run args kwargs (clock st) (world st)) as [[r now] w].
Qed.

Lemma prepared_set_throttles h k st :
  prepared h k st = set_throttles (throttles (prepared h k st)) st.
Proof.
  destruct st as [c w t a co r].
  unfold prepared, ensure_dict, ensure_entry; simpl.
  destruct (t !! h); simpl;
    match goal with |- context [get_entry ?a ?b ?c] =>
      destruct (get_entry a b c) end; done.
Qed.

Lemma ran_neq_snoc {A} (l : list A) (x : A) : l ++ [x] ≠ l.
Proof.
  intros Heq. apply (f_equal length) in Heq.
  rewrite length_app in Heq. simpl in Heq. lia.
Qed.

Lemma top_host_Some wrapper_id self is_async is_func c args h :
  top_host (Wrapper wrapper_id self is_async is_func c) args = Some h ↔
  resolve_host (callable_self c) is_func wrapper_id args = PObj h.
Proof.
  simpl. destruct (resolve_host _ _ _ _); split; intros Heq;
    by inversion Heq.
Qed.

Lemma top_host_None wrapper_id self is_async is_func c args :
  top_host (Wrapper wrapper_id self is_async is_func c) args = None →
  ∀ h, resolve_host (callable_self c) is_func wrapper_id args ≠ PObj h.
Proof. simpl. intros Hn h Hh. by rewrite Hh in Hn. Qed.

Lemma Throttle_call_plain self c next :
  limit_no_throttle self = None →
  Throttle_call self c next =
  make_wrapper self (iscoroutinefunction c) c next.
Proof. intros Hl. unfold Throttle_call. by rewrite Hl. Qed.

Lemma Throttle_call_nested self c next limit :
  limit_no_throttle self = Some limit →
  Throttle_call self c next =
  make_wrapper self (iscoroutinefunction c)
    (make_wrapper (Throttle_init next limit None) (iscoroutinefunction c)
                  c (next + 1)%positive)
    (next + 2)%positive.
Proof. intros Hl. unfold Throttle_call. by rewrite Hl. Qed.

End Decorated.

(** ** When the real method runs *)

Section Execution.

Context {W : Type}.
Implicit Types (st : state W) (m : pymethod W) (c : callable W)
  (args : list pyval) (kwargs : gmap string pyval) (h k : obj).

Lemma same_program_refl st : same_program st st.
Proof. by repeat split. Qed.

Lemma same_program_sym st st' : same_program st st' → same_program st' st.
Proof. intros (?&?&?&?&?). by repeat split. Qed.

Lemma same_program_trans st1 st2 st3 :
  same_program st1 st2 → same_program st2 st3 → same_program st1 st3.
Proof.
  intros (?&?&?&?&?) (?&?&?&?&?). repeat split; congruence.
Qed.

Lemma same_program_set_throttles t st : same_program (set_throttles t st) st.
Proof. by repeat split. Qed.

Lemma same_program_upd h k f st : same_program (upd_entry h k f st) st.
Proof. apply same_program_set_throttles. Qed.

Lemma same_program_prepared h k st : same_program (prepared h k st) st.
Proof. rewrite prepared_set_throttles. apply same_program_set_throttles. Qed.

Lemma same_program_eq st st' :
  same_program st st' → st = set_throttles (throttles st) st'.
Proof.
  destruct st, st'. intros (?&?&?&?&?); simpl in *. by subst.
Qed.

Lemma throttled_value_same_program is_async st st' :
  same_program st st' →
  fst (throttled_value is_async st) = fst (throttled_value is_async st').
Proof.
  intros (?&?&?&Hc&?). unfold throttled_value.
  destruct is_async; simpl; by rewrite ?Hc.
Qed.

Lemma throttled_value_ran is_async st :
  ran (snd (throttled_value is_async st)) = ran st.
Proof. unfold throttled_value. by destruct is_async. Qed.

Lemma throttled_value_throttles is_async st :
  throttles (snd (throttled_value is_async st)) = throttles st.
Proof. unfold throttled_value. by destruct is_async. Qed.

Lemma invoke_same_program m args kwargs st st' :
  same_program st st' →
  fst (invoke m args kwargs st) = fst (invoke m args kwargs st')
  ∧ same_program (snd (invoke m args kwargs st)) (snd (invoke m args kwargs st')).
Proof.
  intros Hs. rewrite (same_program_eq _ _ Hs), invoke_set_throttles; simpl.
  split; [done|apply same_program_set_throttles].
Qed.

Lemma stripped_delete c kwargs :
  stripped c (delete "no_throttle"%string kwargs)
  = delete "no_throttle"%string kwargs.
Proof.
  destruct c; simpl; [done|].
  apply map_eq; intros i. rewrite !lookup_delete.
  by case_decide.
Qed.

(** The state in which a wrapper that lets the call through hands over to
    the callable it wraps. *)
Lemma passes_Wrapper wrapper_id self is_async is_func c args kwargs st :
  passes (Wrapper wrapper_id self is_async is_func c) args kwargs st = true →
  ∃ h, resolve_host (callable_self c) is_func wrapper_id args = PObj h
    ∧ lock (entry_at h (self_id self) st) = false
    ∧ gate_open self kwargs (entry_at h (self_id self) st) (clock st) = true
    ∧ passes c args (delete "no_throttle"%string kwargs)
             (upd_entry h (self_id self) acquired
                        (prepared h (self_id self) st)) = true.
Proof.
  cbn [passes].
  destruct (top_host _ args) as [h|] eqn:Hh; [|done].
  apply top_host_Some in Hh. intros Hp.
  apply andb_prop in Hp as [Hp Hin]. apply andb_prop in Hp as [Hl Hg].
  exists h. repeat split; try done. by apply negb_true_iff.
Qed.

(** The ghost log grows exactly when every wrapper lets the call through. *)
Lemma call_ran c : ∀ args kwargs st,
  ran (snd (call c args kwargs st)) =
  if passes c args kwargs st
  then ran st ++ [(args, stripped c kwargs)]
  else ran st.
Proof.
  induction c as [m|wrapper_id self is_async is_func c IH];
    intros args kwargs st.
  - simpl. apply invoke_ran.
  - destruct (passes _ args kwargs st) eqn:Hp.
    + apply passes_Wrapper in Hp as (h & Hh & Hl & Hg & Hin).
      cbn [call]. rewrite (wrapper_open _ _ _ _ _ _ h) by done.
      specialize (IH args (delete "no_throttle"%string kwargs)
                    (upd_entry h (self_id self) acquired
                               (prepared h (self_id self) st))).
      rewrite Hin, stripped_delete in IH.
      destruct (call c _ _ _) as [[v|e] st']; simpl in *; rewrite IH;
        f_equal; by destruct (same_program_prepared h (self_id self) st) as (_&_&_&_&->).
    + cbn [call]. cbn [passes] in Hp.
      destruct (top_host _ args) as [h|] eqn:Hh.
      * apply top_host_Some in Hh.
        destruct (lock (entry_at h (self_id self) st)) eqn:Hl.
        { rewrite (wrapper_locked _ _ _ _ _ _ h) by done.
          apply throttled_value_ran. }
        destruct (gate_open self kwargs (entry_at h (self_id self) st) (clock st)) eqn:Hg.
        2:{ rewrite (wrapper_closed _ _ _ _ _ _ h) by done.
            apply throttled_value_ran. }
        simpl in Hp.
        rewrite (wrapper_open _ _ _ _ _ _ h) by done.
        specialize (IH args (delete "no_throttle"%string kwargs)
                      (upd_entry h (self_id self) acquired
                                 (prepared h (self_id self) st))).
        rewrite Hp in IH.
        destruct (call c _ _ _) as [[v|e] st']; simpl in *; rewrite IH;
          by destruct (same_program_prepared h (self_id self) st) as (_&_&_&_&->).
      * rewrite wrapper_no_dict; [done|]. exact (top_host_None _ _ _ _ _ _ Hh).
Qed.

(** A call that goes through returns what the real method returns, and
    leaves the program where the real method leaves it. *)
Lemma call_passes c : ∀ args kwargs st,
  passes c args kwargs st = true →
  fst (call c args kwargs st)
  = fst (invoke (real_method c) args (stripped c kwargs) st)
  ∧ same_program (snd (call c args kwargs st))
      (snd (invoke (real_method c) args (stripped c kwargs) st)).
Proof.
  induction c as [m|wrapper_id self is_async is_func c IH];
    intros args kwargs st Hp.
  - simpl. split; [done|apply same_program_refl].
  - apply passes_Wrapper in Hp as (h & Hh & Hl & Hg & Hin).
    cbn [call real_method stripped].
    rewrite (wrapper_open _ _ _ _ _ _ h) by done.
    destruct (IH _ _ _ Hin) as [Ho Hs]. rewrite stripped_delete in Ho, Hs.
    assert (same_program
              (upd_entry h (self_id self) acquired (prepared h (self_id self) st))
              st) as Hst.
    { eapply same_program_trans;
        [apply same_program_upd|apply same_program_prepared]. }
    destruct (invoke_same_program (real_method c) args
                (delete "no_throttle"%string kwargs) _ _ Hst) as [Ho' Hs'].
    destruct (call c _ _ _) as [[v|e] st']; simpl in *.
    + split; [congruence|].
      eapply same_program_trans; [apply same_program_upd|].
      eapply same_program_trans; [apply same_program_upd|].
      eapply same_program_trans; eauto.
    + split; [congruence|].
      eapply same_program_trans; [apply same_program_upd|].
      eapply same_program_trans; eauto.
Qed.

End Execution.

(** ** What a call does to the registry *)

Section Frame.

Context {W : Type}.
Implicit Types (st : state W) (m : pymethod W) (c : callable W)
  (args : list pyval) (kwargs : gmap string pyval) (h k : obj).

Lemma gate_open_elapsed self kwargs e now :
  gate_open self kwargs e now
  = truthy (no_throttle kwargs) || elapsed (min_time self) e now.
Proof.
  unfold gate_open, elapsed. destruct (last e) as [t|]; simpl.
  - by rewrite orb_false_r.
  - by rewrite !orb_true_r.
Qed.

Lemma no_throttle_delete kwargs :
  no_throttle (delete "no_throttle"%string kwargs) = PBool false.
Proof. unfold no_throttle. by rewrite lookup_delete_eq. Qed.

Lemma get_entry_acquire h k h' k' st :
  get_entry h' k' (upd_entry h k acquired (prepared h k st)) =
  if decide (h = h' ∧ k = k') then Some (acquired (entry_at h k st))
  else get_entry h' k' st.
Proof.
  rewrite get_entry_upd, get_entry_prepared. by case_decide.
Qed.

Lemma entry_at_acquire h k h' k' st :
  entry_at h' k' (upd_entry h k acquired (prepared h k st)) =
  if decide (h = h' ∧ k = k') then acquired (entry_at h k st)
  else entry_at h' k' st.
Proof.
  unfold entry_at at 1. rewrite get_entry_acquire. by case_decide.
Qed.

(** The state a wrapper leaves when the callable it wraps comes back. *)
Lemma wrapper_result self is_async is_func c wrapper_id args kwargs st h :
  resolve_host (callable_self c) is_func wrapper_id args = PObj h →
  lock (entry_at h (self_id self) st) = false →
  gate_open self kwargs (entry_at h (self_id self) st) (clock st) = true →
  let inner := call c args (delete "no_throttle"%string kwargs)
                 (upd_entry h (self_id self) acquired
                            (prepared h (self_id self) st)) in
  call (Wrapper wrapper_id self is_async is_func c) args kwargs st =
  (fst inner,
   match fst inner with
   | Return _ =>
       upd_entry h (self_id self) released
         (upd_entry h (self_id self) (stamped (clock (snd inner))) (snd inner))
   | Raise _ => upd_entry h (self_id self) released (snd inner)
   end).
Proof.
  intros Hh Hl Hg inner. cbn [call].
  rewrite (wrapper_open _ _ _ _ _ _ h) by done.
  fold inner. by destruct inner as [[v|e] st'].
Qed.

(** Entries are created, never removed. *)
Lemma call_present c : ∀ args kwargs st h k,
  is_Some (get_entry h k st) →
  is_Some (get_entry h k (snd (call c args kwargs st))).
Proof.
  induction c as [m|wrapper_id self is_async is_func c IH];
    intros args kwargs st h' k' Hin.
  - unfold get_entry in *. simpl. by rewrite invoke_throttles.
  - destruct (top_host (Wrapper wrapper_id self is_async is_func c) args)
      as [h|] eqn:Hh.
    2:{ cbn [call]. rewrite wrapper_no_dict; [done|].
        exact (top_host_None _ _ _ _ _ _ Hh). }
    apply top_host_Some in Hh.
    destruct (lock (entry_at h (self_id self) st)) eqn:Hl.
    { cbn [call]. rewrite (wrapper_locked _ _ _ _ _ _ h) by done.
      unfold get_entry in *. by rewrite throttled_value_throttles. }
    destruct (gate_open self kwargs (entry_at h (self_id self) st) (clock st))
      eqn:Hg.
    2:{ cbn [call]. rewrite (wrapper_closed _ _ _ _ _ _ h) by done.
        unfold get_entry in *. by rewrite throttled_value_throttles. }
    rewrite (wrapper_result _ _ _ _ _ _ _ _ h) by done. cbn [snd].
    set (s := upd_entry h (self_id self) acquired (prepared h (self_id self) st)).
    assert (is_Some (get_entry h' k' (snd (call c args
              (delete "no_throttle"%string kwargs) s)))) as [e He].
    { apply IH. unfold s. rewrite get_entry_acquire. by case_decide. }
    destruct (fst (call c args (delete "no_throttle"%string kwargs) s));
      rewrite ?get_entry_upd, He; repeat case_decide; by eexists.
Qed.

(** A call touches no entry outside its layers. *)
Lemma call_frame c : ∀ args kwargs st h k,
  (h, k) ∉ layers c args →
  get_entry h k (snd (call c args kwargs st)) = get_entry h k st.
Proof.
  induction c as [m|wrapper_id self is_async is_func c IH];
    intros args kwargs st h' k' Hout.
  - unfold get_entry. simpl. by rewrite invoke_throttles.
  - cbn [layers] in Hout.
    destruct (top_host (Wrapper wrapper_id self is_async is_func c) args)
      as [h|] eqn:Hh.
    2:{ cbn [call]. rewrite wrapper_no_dict; [done|].
        exact (top_host_None _ _ _ _ _ _ Hh). }
    apply top_host_Some in Hh.
    apply not_elem_of_cons in Hout as [Hne Hout].
    assert (¬ (h = h' ∧ self_id self = k')) as Hne'
      by (intros [<- <-]; done).
    destruct (lock (entry_at h (self_id self) st)) eqn:Hl.
    { cbn [call]. rewrite (wrapper_locked _ _ _ _ _ _ h) by done.
      unfold get_entry. by rewrite throttled_value_throttles. }
    destruct (gate_open self kwargs (entry_at h (self_id self) st) (clock st))
      eqn:Hg.
    2:{ cbn [call]. rewrite (wrapper_closed _ _ _ _ _ _ h) by done.
        unfold get_entry. by rewrite throttled_value_throttles. }
    rewrite (wrapper_result _ _ _ _ _ _ _ _ h) by done. cbn [snd].
    destruct (fst (call c args _ _));
      rewrite ?get_entry_upd, !decide_False by done;
      rewrite IH by done; rewrite get_entry_acquire;
      by rewrite decide_False.
Qed.

(** A call that raises leaves every entry as it found it (an entry not yet
    created counts as the fresh one). *)
Lemma call_raise_entries c : ∀ args kwargs st e,
  fst (call c args kwargs st) = Raise e →
  ∀ h k, entry_at h k (snd (call c args kwargs st)) = entry_at h k st.
Proof.
  induction c as [m|wrapper_id self is_async is_func c IH];
    intros args kwargs st x Hr h' k'.
  - unfold entry_at, get_entry. simpl. by rewrite invoke_throttles.
  - destruct (top_host (Wrapper wrapper_id self is_async is_func c) args)
      as [h|] eqn:Hh.
    2:{ cbn [call]. rewrite wrapper_no_dict; [done|].
        exact (top_host_None _ _ _ _ _ _ Hh). }
    apply top_host_Some in Hh.
    destruct (lock (entry_at h (self_id self) st)) eqn:Hl.
    { cbn [call] in *. rewrite (wrapper_locked _ _ _ _ _ _ h) in * by done.
      unfold throttled_value in Hr. by destruct is_async. }
    destruct (gate_open self kwargs (entry_at h (self_id self) st) (clock st))
      eqn:Hg.
    2:{ cbn [call] in *. rewrite (wrapper_closed _ _ _ _ _ _ h) in * by done.
        unfold throttled_value in Hr. by destruct is_async. }
    rewrite (wrapper_result _ _ _ _ _ _ _ _ h) in * by done. cbn [fst snd] in *.
    set (s := upd_entry h (self_id self) acquired (prepared h (self_id self) st))
      in *.
    rewrite Hr. unfold entry_at at 1. rewrite get_entry_upd.
    pose proof (IH _ _ _ _ Hr h' k') as Hin.
    assert (is_Some (get_entry h (self_id self)
              (snd (call c args (delete "no_throttle"%string kwargs) s))))
      as [e' He'].
    { apply call_present. unfold s. rewrite get_entry_acquire.
      by rewrite decide_True. }
    case_decide as Hc.
    + destruct Hc as [<- <-]. unfold entry_at in Hin at 1.
      rewrite He' in *. simpl in *. subst e'.
      unfold s. rewrite entry_at_acquire, decide_True by done.
      destruct (entry_at h (self_id self) st) as [l t]; simpl in *. by subst.
    + unfold entry_at in Hin at 1. rewrite Hin.
      unfold s. rewrite entry_at_acquire.
      by rewrite decide_False.
Qed.

End Frame.

(** ** The callable [Throttle.__call__] returns *)

Section Decorator.

Context {W : Type}.
Implicit Types (st : state W) (m : pymethod W) (c : callable W)
  (args : list pyval) (kwargs : gmap string pyval) (h k : obj)
  (self : Throttle).

Lemma decorated_is_wrapper self m next :
  ∃ wrapper_id is_func c,
    Throttle_call self (Method m) next
    = Wrapper wrapper_id self (iscoroutinefunction (Method m)) is_func c
    ∧ real_method c = m.
Proof.
  unfold Throttle_call, make_wrapper.
  destruct (limit_no_throttle self); eauto 10.
Qed.

Lemma decorated_real_method self m next :
  real_method (Throttle_call self (Method m) next) = m.
Proof.
  unfold Throttle_call, make_wrapper. by destruct (limit_no_throttle self).
Qed.

Lemma decorated_stripped self m next kwargs :
  stripped (Throttle_call self (Method m) next) kwargs
  = delete "no_throttle"%string kwargs.
Proof.
  unfold Throttle_call, make_wrapper. by destruct (limit_no_throttle self).
Qed.

(** The outermost wrapper rejects: lock held, or not forced and too early. *)
Lemma decorated_rejects self m next args kwargs st h :
  top_host (Throttle_call self (Method m) next) args = Some h →
  lock (entry_at h (self_id self) st) = true
  ∨ gate_open self kwargs (entry_at h (self_id self) st) (clock st) = false →
  call (Throttle_call self (Method m) next) args kwargs st
  = throttled_value (iscoroutinefunction (Method m)) st.
Proof.
  destruct (decorated_is_wrapper self m next) as (w & isf & c & -> & _).
  intros Hh%top_host_Some [Hl|Hg]; cbn [call].
  - by apply (wrapper_locked _ _ _ _ _ _ h).
  - by apply (wrapper_closed _ _ _ _ _ _ h).
Qed.

(** An executed call leaves the outermost entry released and stamped with
    the time at which the call it wraps came back. *)
Lemma top_stamped wrapper_id self is_async is_func c args kwargs st v st1 h :
  call (Wrapper wrapper_id self is_async is_func c) args kwargs st
  = (Return v, st1) →
  ran st1 ≠ ran st →
  top_host (Wrapper wrapper_id self is_async is_func c) args = Some h →
  get_entry h (self_id self) st1 = Some (Entry false (Some (clock st1))).
Proof.
  intros Hc Hran Hh.
  pose proof (call_ran (Wrapper wrapper_id self is_async is_func c)
                args kwargs st) as Hr.
  rewrite Hc in Hr. cbn [snd] in Hr.
  destruct (passes _ args kwargs st) eqn:Hp; [|done].
  apply passes_Wrapper in Hp as (h' & Hh' & Hl & Hg & _).
  apply top_host_Some in Hh. rewrite Hh in Hh'. inversion Hh'; subst h'.
  rewrite (wrapper_result _ _ _ _ _ _ _ _ h) in Hc by done.
  set (s := upd_entry h (self_id self) acquired (prepared h (self_id self) st))
    in *.
  assert (is_Some (get_entry h (self_id self)
            (snd (call c args (delete "no_throttle"%string kwargs) s))))
    as [e He].
  { apply call_present. unfold s. rewrite get_entry_acquire.
    by rewrite decide_True. }
  inversion Hc as [[Hv Hst]]. rewrite Hv. cbv beta iota.
  rewrite !get_entry_upd_eq, He. done.
Qed.

Lemma decorated_top_stamped self m next args kwargs st v st1 h :
  call (Throttle_call self (Method m) next) args kwargs st = (Return v, st1) →
  ran st1 ≠ ran st →
  top_host (Throttle_call self (Method m) next) args = Some h →
  entry_at h (self_id self) st1 = Entry false (Some (clock st1)).
Proof.
  destruct (decorated_is_wrapper self m next) as (w & isf & c & -> & _).
  intros Hc Hran Hh. unfold entry_at.
  by rewrite (top_stamped _ _ _ _ _ _ _ _ _ _ _ Hc Hran Hh).
Qed.

Lemma clock_acquire h k st :
  clock (upd_entry h k acquired (prepared h k st)) = clock st.
Proof. by destruct (same_program_prepared h k st) as (<-&_). Qed.

Lemma passes_plain self m next args kwargs st h :
  limit_no_throttle self = None →
  top_host (Throttle_call self (Method m) next) args = Some h →
  lock (entry_at h (self_id self) st) = false →
  gate_open self kwargs (entry_at h (self_id self) st) (clock st) = true →
  passes (Throttle_call self (Method m) next) args kwargs st = true.
Proof.
  intros Hlim. rewrite Throttle_call_plain by done. unfold make_wrapper.
  intros Hh Hl Hg. cbn [passes]. rewrite Hh, Hl, Hg. done.
Qed.

(** With a second interval the inner wrapper resolves a host whenever the
    outer one does. *)
Lemma secondary_host_exists self m next limit args h :
  limit_no_throttle self = Some limit →
  top_host (Throttle_call self (Method m) next) args = Some h →
  is_Some (top_host (wrapped (Throttle_call self (Method m) next)) args).
Proof.
  intros Hlim. rewrite (Throttle_call_nested _ _ _ limit) by done.
  unfold make_wrapper. cbn [wrapped top_host callable_self callable_qualname].
  unfold resolve_host.
  destruct (m_self m) as [o|]; simpl; [by eauto|].
  destruct (plain_function_name (m_qualname m)); [by eauto|].
  destruct args as [|[] ?]; by eauto.
Qed.

Lemma passes_nested self m next limit args kwargs st h2 h1 :
  limit_no_throttle self = Some limit →
  self_id self ≠ next →
  top_host (Throttle_call self (Method m) next) args = Some h2 →
  top_host (wrapped (Throttle_call self (Method m) next)) args = Some h1 →
  lock (entry_at h2 (self_id self) st) = false →
  gate_open self kwargs (entry_at h2 (self_id self) st) (clock st) = true →
  lock (entry_at h1 next st) = false →
  elapsed limit (entry_at h1 next st) (clock st) = true →
  passes (Throttle_call self (Method m) next) args kwargs st = true.
Proof.
  intros Hlim Hne. rewrite (Throttle_call_nested _ _ _ limit) by done.
  unfold make_wrapper. cbn [wrapped]. intros Hh2 Hh1 Hl2 Hg2 Hl1 Hg1.
  cbn [passes]. rewrite Hh2, Hl2, Hg2, Hh1. unfold Throttle_init.
  cbn [self_id].
  rewrite entry_at_acquire, decide_False by (intros [_ ?]; done).
  rewrite Hl1, gate_open_elapsed, no_throttle_delete, clock_acquire.
  cbn [min_time]. by rewrite Hg1.
Qed.

(** After an executed call the entry of the second interval is stamped too. *)
Lemma secondary_stamped self m next limit args kwargs st v st1 h1 :
  limit_no_throttle self = Some limit →
  self_id self ≠ next →
  call (Throttle_call self (Method m) next) args kwargs st = (Return v, st1) →
  ran st1 ≠ ran st →
  top_host (wrapped (Throttle_call self (Method m) next)) args = Some h1 →
  entry_at h1 next st1 = Entry false (Some (clock st1)).
Proof.
  intros Hlim Hne. rewrite (Throttle_call_nested _ _ _ limit) by done.
  unfold make_wrapper. cbn [wrapped]. intros Hc Hran Hh1.
  match type of Hc with call ?d _ _ _ = _ =>
    pose proof (call_ran d args kwargs st) as Hr end.
  rewrite Hc in Hr. cbn [snd] in Hr.
  match type of Hr with context [passes ?d _ _ _] =>
    destruct (passes d args kwargs st) eqn:Hp; [|done] end.
  apply passes_Wrapper in Hp as (h2 & Hh2 & Hl & Hg & Hin).
  rewrite (wrapper_result _ _ _ _ _ _ _ _ h2) in Hc by done.
  set (s := upd_entry h2 (self_id self) acquired (prepared h2 (self_id self) st))
    in *.
  destruct (call _ args (delete "no_throttle"%string kwargs) s)
    as [o s'] eqn:Hinner.
  cbn [fst snd] in Hc.
  destruct o as [v'|e]; inversion Hc; subst v' st1; clear Hc.
  assert (ran s' ≠ ran s) as Hran'.
  { match type of Hinner with call ?d _ _ _ = _ =>
      pose proof (call_ran d args (delete "no_throttle"%string kwargs) s)
        as Hr' end.
    rewrite Hinner, Hin in Hr'. cbn [snd] in Hr'. rewrite Hr'.
    apply ran_neq_snoc. }
  pose proof (top_stamped _ _ _ _ _ _ _ _ _ _ _ Hinner Hran' Hh1) as Hs.
  unfold Throttle_init in Hs. cbn [self_id] in Hs.
  unfold entry_at. rewrite !get_entry_upd_ne by (right; done).
  by rewrite Hs.
Qed.

Lemma entry_at_throttles h k st st' :
  throttles st = throttles st' → entry_at h k st = entry_at h k st'.
Proof. unfold entry_at, get_entry. by intros ->. Qed.

(** What a call that goes through every wrapper returns and logs. *)
Lemma decorated_passes self m next args kwargs st :
  passes (Throttle_call self (Method m) next) args kwargs st = true →
  fst (call (Throttle_call self (Method m) next) args kwargs st)
  = fst (invoke m args (delete "no_throttle"%string kwargs) st)
  ∧ ran (snd (call (Throttle_call self (Method m) next) args kwargs st))
    = ran st ++ [(args, delete "no_throttle"%string kwargs)]
  ∧ same_program
      (snd (call (Throttle_call self (Method m) next) args kwargs st))
      (snd (invoke m args (delete "no_throttle"%string kwargs) st)).
Proof.
  intros Hp. destruct (call_passes _ _ _ _ Hp) as [Ho Hs].
  rewrite decorated_real_method, decorated_stripped in Ho, Hs.
  split; [done|]. split; [|done].
  by rewrite call_ran, Hp, decorated_stripped.
Qed.

(** The log tells whether a call went through. *)
Lemma executed_passes (c : callable W) args kwargs st :
  ran (snd (call c args kwargs st)) ≠ ran st →
  passes c args kwargs st = true.
Proof.
  rewrite call_ran. by destruct (passes c args kwargs st).
Qed.

Lemma decorated_passes_top self m next args kwargs st :
  passes (Throttle_call self (Method m) next) args kwargs st = true →
  ∃ h, top_host (Throttle_call self (Method m) next) args = Some h
     ∧ lock (entry_at h (self_id self) st) = false
     ∧ gate_open self kwargs (entry_at h (self_id self) st) (clock st) = true.
Proof.
  destruct (decorated_is_wrapper self m next) as (w & isf & c & -> & _).
  intros (h & Hh & Hl & Hg & _)%passes_Wrapper.
  exists h. by rewrite top_host_Some.
Qed.

(** Whether a call goes through depends on the time and on the entries of
    its layers only. *)
Lemma passes_ext (c : callable W) : ∀ args kwargs st st',
  clock st = clock st' →
  (∀ h k, (h, k) ∈ layers c args → entry_at h k st = entry_at h k st') →
  passes c args kwargs st = passes c args kwargs st'.
Proof.
  induction c as [m|wrapper_id self is_async is_func c IH];
    intros args kwargs st st' Hclock Hent; [done|].
  cbn [passes]. cbn [layers] in Hent.
  destruct (top_host (Wrapper wrapper_id self is_async is_func c) args)
    as [h|]; [|done].
  rewrite <- (Hent h (self_id self)) by apply list_elem_of_here.
  rewrite <- Hclock. f_equal. apply IH.
  - by rewrite !clock_acquire.
  - intros h' k' Hin. rewrite !entry_at_acquire.
    rewrite (Hent h (self_id self)) by apply list_elem_of_here.
    rewrite (Hent h' k') by (by apply list_elem_of_further).
    done.
Qed.

(** A call goes through only if the lock of each of its layers is free. *)
Lemma passes_locks (c : callable W) : ∀ args kwargs st,
  passes c args kwargs st = true →
  ∀ h k, (h, k) ∈ layers c args → lock (entry_at h k st) = false.
Proof.
  induction c as [m|wrapper_id self is_async is_func c IH];
    intros args kwargs st Hp h' k' Hin.
  - by apply elem_of_nil in Hin.
  - apply passes_Wrapper in Hp as (h & Hh & Hl & Hg & Hp).
    cbn [layers] in Hin.
    rewrite (proj2 (top_host_Some wrapper_id self is_async is_func c args h) Hh)
      in Hin.
    specialize (IH _ _ _ Hp).
    destruct (decide (h = h' ∧ self_id self = k')) as [[<- <-]|Hne]; [done|].
    apply elem_of_cons in Hin as [Heq|Hin]; [by inversion Heq; subst; tauto|].
    specialize (IH h' k' Hin).
    by rewrite entry_at_acquire, decide_False in IH.
Qed.

Lemma layers_top self m next args h :
  top_host (Throttle_call self (Method m) next) args = Some h →
  (h, self_id self) ∈ layers (Throttle_call self (Method m) next) args.
Proof.
  destruct (decorated_is_wrapper self m next) as (w & isf & c & -> & _).
  intros Hh. cbn [layers]. rewrite Hh. apply list_elem_of_here.
Qed.

Lemma layers_secondary self m next limit args h h1 :
  limit_no_throttle self = Some limit →
  top_host (Throttle_call self (Method m) next) args = Some h →
  top_host (wrapped (Throttle_call self (Method m) next)) args = Some h1 →
  (h1, next) ∈ layers (Throttle_call self (Method m) next) args.
Proof.
  intros Hlim. rewrite (Throttle_call_nested _ _ _ limit) by done.
  unfold make_wrapper. cbn [wrapped]. intros Hh Hh1.
  cbn [layers]. rewrite Hh, Hh1. apply list_elem_of_further, list_elem_of_here.
Qed.

(** No call writes an attribute other than [_throttle]. *)
Lemma call_attrs (c : callable W) : ∀ args kwargs st,
  attrs (snd (call c args kwargs st)) = attrs st.
Proof.
  induction c as [m|wrapper_id self is_async is_func c IH];
    intros args kwargs st.
  - unfold call, invoke. destruct (m_body m) as [run|n]; simpl; [|done].
    by destruct (run _ _ _ _) as [[o now] w].
  - destruct (top_host (Wrapper wrapper_id self is_async is_func c) args)
      as [h|] eqn:Hh.
    2:{ cbn [call]. rewrite wrapper_no_dict; [done|].
        exact (top_host_None _ _ _ _ _ _ Hh). }
    apply top_host_Some in Hh.
    destruct (lock (entry_at h (self_id self) st)) eqn:Hl.
    { cbn [call]. rewrite (wrapper_locked _ _ _ _ _ _ h) by done.
      unfold throttled_value. by destruct is_async. }
    destruct (gate_open self kwargs (entry_at h (self_id self) st) (clock st))
      eqn:Hg.
    2:{ cbn [call]. rewrite (wrapper_closed _ _ _ _ _ _ h) by done.
        unfold throttled_value. by destruct is_async. }
    rewrite (wrapper_result _ _ _ _ _ _ _ _ h) by done. cbn [snd].
    assert (∀ h' k' f (s : state W), attrs (upd_entry h' k' f s) = attrs s)
      as Hupd by done.
    destruct (fst (call c args _ _)); rewrite !Hupd, IH, Hupd;
      by destruct (same_program_prepared h (self_id self) st) as (_&_&->&_).
Qed.

(** A method defined in a class and called on an instance: both wrappers
    keep their entries on the instance. *)
Lemma layers_of_method self m next h rest :
  m_self m = None →
  plain_function_name (m_qualname m) = false →
  layers (Throttle_call self (Method m) next) (PObj h :: rest)
  = (h, self_id self)
    :: match limit_no_throttle self with
       | Some _ => [(h, next)]
       | None => []
       end.
Proof.
  intros Hself Hname. unfold Throttle_call, make_wrapper.
  destruct (limit_no_throttle self);
    cbn [layers top_host callable_self callable_qualname resolve_host];
    rewrite ?Hself, ?Hname, ?andb_false_r; done.
Qed.

Lemma layers_of_method_host self m next h rest h' k :
  m_self m = None →
  plain_function_name (m_qualname m) = false →
  (h', k) ∈ layers (Throttle_call self (Method m) next) (PObj h :: rest) →
  h' = h.
Proof.
  intros Hself Hname. rewrite layers_of_method by done.
  destruct (limit_no_throttle self); intros Hin;
    repeat (apply elem_of_cons in Hin as [Heq|Hin]; [by inversion Heq|]);
    by apply elem_of_nil in Hin.
Qed.

(** Every lock is, after a call, as it was before the call. *)
Lemma call_locks (c : callable W) : ∀ args kwargs st h k,
  lock (entry_at h k (snd (call c args kwargs st))) = lock (entry_at h k st).
Proof.
  induction c as [m|wrapper_id self is_async is_func c IH];
    intros args kwargs st h' k'.
  - apply (f_equal lock), entry_at_throttles, invoke_throttles.
  - destruct (top_host (Wrapper wrapper_id self is_async is_func c) args)
      as [h|] eqn:Hh.
    2:{ cbn [call]. rewrite wrapper_no_dict; [done|].
        exact (top_host_None _ _ _ _ _ _ Hh). }
    apply top_host_Some in Hh.
    destruct (lock (entry_at h (self_id self) st)) eqn:Hl.
    { cbn [call]. rewrite (wrapper_locked _ _ _ _ _ _ h) by done.
      apply (f_equal lock), entry_at_throttles, throttled_value_throttles. }
    destruct (gate_open self kwargs (entry_at h (self_id self) st) (clock st))
      eqn:Hg.
    2:{ cbn [call]. rewrite (wrapper_closed _ _ _ _ _ _ h) by done.
        apply (f_equal lock), entry_at_throttles, throttled_value_throttles. }
    rewrite (wrapper_result _ _ _ _ _ _ _ _ h) by done. cbn [snd].
    set (s := upd_entry h (self_id self) acquired (prepared h (self_id self) st)).
    assert (is_Some (get_entry h (self_id self)
              (snd (call c args (delete "no_throttle"%string kwargs) s))))
      as [e' He'].
    { apply call_present. unfold s. rewrite get_entry_acquire.
      by rewrite decide_True. }
    pose proof (IH args (delete "no_throttle"%string kwargs) s h' k') as Hin.
    unfold s in Hin at 2. rewrite entry_at_acquire in Hin.
    destruct (decide (h = h' ∧ self_id self = k')) as [[<- <-]|Hn].
    + destruct (fst (call c args (delete "no_throttle"%string kwargs) s));
        unfold entry_at at 1; rewrite ?get_entry_upd_eq, He'; simpl;
        by rewrite Hl.
    + destruct (fst (call c args (delete "no_throttle"%string kwargs) s));
        unfold entry_at at 1;
        rewrite ?get_entry_upd, ?decide_False by done; done.
Qed.

Lemma entry_at_throttled_value is_async h k st :
  entry_at h k (snd (throttled_value is_async st)) = entry_at h k st.
Proof. apply entry_at_throttles, throttled_value_throttles. Qed.

(** What a call that does not go through can change: with a second interval,
    when the outer wrapper lets the call in and the inner one turns it down,
    the outer entry gets the present time.  Nothing else. *)
Lemma rejected_entries self m next args kwargs st h k :
  self_id self ≠ next →
  passes (Throttle_call self (Method m) next) args kwargs st = false →
  entry_at h k (snd (call (Throttle_call self (Method m) next) args kwargs st))
  ≠ entry_at h k st →
  is_Some (limit_no_throttle self)
  ∧ top_host (Throttle_call self (Method m) next) args = Some h
  ∧ k = self_id self
  ∧ lock (entry_at h k st) = false
  ∧ gate_open self kwargs (entry_at h k st) (clock st) = true
  ∧ entry_at h k
      (snd (call (Throttle_call self (Method m) next) args kwargs st))
    = Entry false (Some (clock st)).
Proof.
  intros Hne Hp Hch.
  assert (∀ (d : callable W),
            call d args kwargs st = (Raise AttributeError, st)
            ∨ (∃ a, call d args kwargs st = throttled_value a st) →
            entry_at h k (snd (call d args kwargs st)) = entry_at h k st)
    as Hsame.
  { intros d [->|[a ->]]; [done|apply entry_at_throttled_value]. }
  destruct (limit_no_throttle self) as [limit|] eqn:Hlim.
  - revert Hp Hch. rewrite (Throttle_call_nested _ _ _ limit) by done.
    unfold make_wrapper, Throttle_init.
    set (inner := Wrapper (next + 1) (MkThrottle next limit None) _ _ _).
    set (isf := negb (bool_decide (is_Some (callable_self inner))) && _).
    intros Hp Hch.
    destruct (top_host (Wrapper (next + 2) self
                (iscoroutinefunction (Method m)) isf inner) args)
      as [h2|] eqn:Hh.
    2:{ destruct Hch. apply Hsame. left. cbn [call].
        apply wrapper_no_dict. exact (top_host_None _ _ _ _ _ _ Hh). }
    pose proof Hh as Hh'. apply top_host_Some in Hh'.
    destruct (lock (entry_at h2 (self_id self) st)) eqn:Hl.
    { destruct Hch. apply Hsame. right. eexists. cbn [call].
      by apply (wrapper_locked _ _ _ _ _ _ h2). }
    destruct (gate_open self kwargs (entry_at h2 (self_id self) st) (clock st))
      eqn:Hg.
    2:{ destruct Hch. apply Hsame. right. eexists. cbn [call].
        by apply (wrapper_closed _ _ _ _ _ _ h2). }
    cbn [passes] in Hp. rewrite Hh, Hl, Hg in Hp. cbn [negb andb] in Hp.
    revert Hch. rewrite (wrapper_result _ _ _ _ _ _ _ _ h2) by done.
    cbn [snd].
    set (s := upd_entry h2 (self_id self) acquired
                (prepared h2 (self_id self) st)) in *.
    assert (get_entry h2 (self_id self) s
            = Some (acquired (entry_at h2 (self_id self) st))) as Hs2.
    { unfold s. by rewrite get_entry_acquire, decide_True. }
    assert (∀ h' k', ¬ (h2 = h' ∧ self_id self = k') →
                     entry_at h' k' s = entry_at h' k' st) as Hs.
    { intros h' k' Hn. unfold s. by rewrite entry_at_acquire, decide_False. }
    assert (call inner args (delete "no_throttle"%string kwargs) s
            = (Raise AttributeError, s)
            ∨ ∃ a, call inner args (delete "no_throttle"%string kwargs) s
                   = throttled_value a s) as [Hi|[a Hi]].
    { unfold inner in *. cbn [passes] in Hp. cbn [call].
      destruct (top_host _ args) as [h1|] eqn:Hh1.
      2:{ left. apply wrapper_no_dict.
          exact (top_host_None _ _ _ _ _ _ Hh1). }
      apply top_host_Some in Hh1. right. eexists.
      destruct (lock (entry_at h1 (self_id (MkThrottle next limit None)) s))
        eqn:Hl1; [by apply (wrapper_locked _ _ _ _ _ _ h1)|].
      apply (wrapper_closed _ _ _ _ _ _ h1); [done|].
      rewrite andb_true_r in Hp. by destruct (gate_open _ _ _ _). }
    + rewrite Hi. cbn [fst snd]. intros Hch. destruct Hch.
      unfold entry_at at 1. rewrite get_entry_upd.
      case_decide as Hc.
      * destruct Hc as [<- <-]. rewrite Hs2. simpl.
        destruct (entry_at h2 (self_id self) st) as [l t]; simpl in *.
        by subst.
      * by apply Hs.
    + rewrite Hi.
      assert (∃ v0, fst (throttled_value a s) = Return v0) as [v0 ->]
        by (unfold throttled_value; destruct a; by eexists).
      cbv beta iota.
      assert (get_entry h2 (self_id self) (snd (throttled_value a s))
              = Some (acquired (entry_at h2 (self_id self) st))) as Hs2'.
      { rewrite <- Hs2. unfold get_entry.
        by rewrite throttled_value_throttles. }
      assert (clock (snd (throttled_value a s)) = clock st) as Hck.
      { unfold throttled_value, s. destruct a; simpl;
          by destruct (same_program_prepared h2 (self_id self) st) as (<-&_). }
      assert (∀ h' k',
                entry_at h' k'
                  (upd_entry h2 (self_id self) released
                     (upd_entry h2 (self_id self)
                        (stamped (clock (snd (throttled_value a s))))
                        (snd (throttled_value a s))))
                = if decide (h2 = h' ∧ self_id self = k')
                  then Entry false (Some (clock st))
                  else entry_at h' k' st) as Hfinal.
      { intros h' k'. unfold entry_at at 1. rewrite !get_entry_upd.
        case_decide as Hc.
        - destruct Hc as [<- <-]. rewrite Hs2'. simpl. by rewrite Hck.
        - change (entry_at h' k' (snd (throttled_value a s))
                  = entry_at h' k' st).
          rewrite entry_at_throttled_value. by apply Hs. }
      rewrite !Hfinal. case_decide as Hc; [|done].
      destruct Hc as [<- <-]. intros _. by repeat split.
  - destruct Hch. apply Hsame. revert Hp.
    rewrite Throttle_call_plain by done. unfold make_wrapper.
    set (isf := negb _ && _). intros Hp. cbn [call].
    destruct (top_host (Wrapper next self (iscoroutinefunction (Method m))
                isf (Method m)) args) as [h2|] eqn:Hh.
    2:{ left. apply wrapper_no_dict. exact (top_host_None _ _ _ _ _ _ Hh). }
    cbn [passes] in Hp. rewrite Hh in Hp.
    apply top_host_Some in Hh. right. eexists.
    destruct (lock (entry_at h2 (self_id self) st)) eqn:Hl;
      [by apply (wrapper_locked _ _ _ _ _ _ h2)|].
    apply (wrapper_closed _ _ _ _ _ _ h2); [done|].
    rewrite andb_true_r in Hp. by destruct (gate_open _ _ _ _).
Qed.

(** A call that finds its outer host and does not go through returns what
    [throttled_value] returns. *)
Lemma decorated_rejected_outcome self m next args kwargs st h :
  top_host (Throttle_call self (Method m) next) args = Some h →
  passes (Throttle_call self (Method m) next) args kwargs st = false →
  fst (call (Throttle_call self (Method m) next) args kwargs st)
  = fst (throttled_value (iscoroutinefunction (Method m)) st).
Proof.
  intros Hh Hp.
  destruct (lock (entry_at h (self_id self) st)) eqn:Hl;
    [by rewrite (decorated_rejects _ _ _ _ _ _ h) by auto|].
  destruct (gate_open self kwargs (entry_at h (self_id self) st) (clock st))
    eqn:Hg; [|by rewrite (decorated_rejects _ _ _ _ _ _ h) by auto].
  destruct (limit_no_throttle self) as [limit|] eqn:Hlim.
  2:{ by rewrite (passes_plain _ _ _ _ _ _ h) in Hp. }
  destruct (secondary_host_exists _ _ _ _ _ _ Hlim Hh) as [h1 Hh1].
  revert Hh Hh1 Hp. rewrite (Throttle_call_nested _ _ _ limit) by done.
  unfold make_wrapper, Throttle_init. cbn [wrapped].
  set (inner := Wrapper (next + 1) (MkThrottle next limit None) _ _ _).
  intros Hh Hh1 Hp. cbn [passes] in Hp. rewrite Hh, Hl, Hg in Hp.
  cbn [negb andb] in Hp. apply top_host_Some in Hh.
  rewrite (wrapper_result _ _ _ _ _ _ _ _ h) by done. cbn [fst].
  set (s := upd_entry h (self_id self) acquired (prepared h (self_id self) st))
    in *.
  assert (same_program s st) as Hs.
  { eapply same_program_trans;
      [apply same_program_upd|apply same_program_prepared]. }
  rewrite <- (throttled_value_same_program _ _ _ Hs).
  unfold inner in *. cbn [passes] in Hp. rewrite Hh1 in Hp.
  apply top_host_Some in Hh1. cbn [call]. f_equal.
  destruct (lock (entry_at h1 (self_id (MkThrottle next limit None)) s))
    eqn:Hl1; [by apply (wrapper_locked _ _ _ _ _ _ h1)|].
  apply (wrapper_closed _ _ _ _ _ _ h1); [done|].
  rewrite andb_true_r in Hp. by destruct (gate_open _ _ _ _).
Qed.

(** What a call returns, in all cases. *)
Lemma decorated_outcome self m next args kwargs st :
  fst (call (Throttle_call self (Method m) next) args kwargs st)
  = match top_host (Throttle_call self (Method m) next) args with
    | None => Raise AttributeError
    | Some _ =>
        if passes (Throttle_call self (Method m) next) args kwargs st
        then fst (invoke m args (delete "no_throttle"%string kwargs) st)
        else fst (throttled_value (iscoroutinefunction (Method m)) st)
    end.
Proof.
  destruct (top_host (Throttle_call self (Method m) next) args) as [h|] eqn:Hh.
  - destruct (passes _ args kwargs st) eqn:Hp.
    + by destruct (decorated_passes _ _ _ _ _ _ Hp) as (? & _).
    + by apply (decorated_rejected_outcome _ _ _ _ _ _ h).
  - revert Hh.
    destruct (decorated_is_wrapper self m next) as (w & isf & c & -> & _).
    intros Hh. cbn [call]. rewrite wrapper_no_dict; [done|].
    exact (top_host_None _ _ _ _ _ _ Hh).
Qed.

End Decorator.

(** * The claims *)

Section Claims.

Context {W : Type}.
Implicit Types (st : state W) (m : pymethod W)
  (args : list pyval) (kwargs : gmap string pyval) (h k : obj)
  (self : Throttle).

(** C1.  A call executed the real method and came back at [clock st1], the
    time it recorded as last success.  A later call on the same host,
    without [no_throttle], made less than [min_time] after that time returns
    what [throttled_value] returns, and the real method is not run: the
    registry and the log of executions stay as they were. *)
Theorem second_call_within_interval_is_throttled
    self m next args1 kwargs1 st0 v st1 h args2 kwargs2 st2 :
  call (Throttle_call self (Method m) next) args1 kwargs1 st0
  = (Return v, st1) →
  ran st1 ≠ ran st0 →
  top_host (Throttle_call self (Method m) next) args1 = Some h →
  top_host (Throttle_call self (Method m) next) args2 = Some h →
  entry_at h (self_id self) st2 = entry_at h (self_id self) st1 →
  truthy (no_throttle kwargs2) = false →
  clock st2 - clock st1 < min_time self →
  last (entry_at h (self_id self) st1) = Some (clock st1)
  ∧ call (Throttle_call self (Method m) next) args2 kwargs2 st2
    = throttled_value (iscoroutinefunction (Method m)) st2
  ∧ ran (snd (call (Throttle_call self (Method m) next) args2 kwargs2 st2))
    = ran st2
  ∧ throttles (snd (call (Throttle_call self (Method m) next) args2 kwargs2 st2))
    = throttles st2.
Proof.
  intros Hc Hran Hh1 Hh2 He Hf Ht.
  pose proof (decorated_top_stamped _ _ _ _ _ _ _ _ _ Hc Hran Hh1) as Hs.
  assert (call (Throttle_call self (Method m) next) args2 kwargs2 st2
          = throttled_value (iscoroutinefunction (Method m)) st2) as Hcall.
  { apply (decorated_rejects _ _ _ _ _ _ h); [done|]. right.
    rewrite gate_open_elapsed, Hf, He, Hs. unfold elapsed; simpl.
    apply Z.ltb_ge. lia. }
  rewrite Hs, Hcall. repeat split.
  - apply throttled_value_ran.
  - apply throttled_value_throttles.
Qed.

(** C2, as the code has it.  A call executed the real method and came back
    at [clock st1].  A later call on the same hosts made strictly more than
    [min_time] after that time (and, when a second interval is set, strictly
    more than that interval too) runs the real method again and returns what
    it returns; so did the first call. *)
Theorem second_call_after_interval_runs
    self m next args1 kwargs1 st0 v st1 args2 kwargs2 st2 :
  (self_id self < next)%positive →
  call (Throttle_call self (Method m) next) args1 kwargs1 st0
  = (Return v, st1) →
  ran st1 ≠ ran st0 →
  top_host (Throttle_call self (Method m) next) args2
  = top_host (Throttle_call self (Method m) next) args1 →
  top_host (wrapped (Throttle_call self (Method m) next)) args2
  = top_host (wrapped (Throttle_call self (Method m) next)) args1 →
  throttles st2 = throttles st1 →
  truthy (no_throttle kwargs2) = false →
  min_time self < clock st2 - clock st1 →
  (∀ limit, limit_no_throttle self = Some limit →
            limit < clock st2 - clock st1) →
  Return v = fst (invoke m args1 (delete "no_throttle"%string kwargs1) st0)
  ∧ fst (call (Throttle_call self (Method m) next) args2 kwargs2 st2)
    = fst (invoke m args2 (delete "no_throttle"%string kwargs2) st2)
  ∧ ran (snd (call (Throttle_call self (Method m) next) args2 kwargs2 st2))
    = ran st2 ++ [(args2, delete "no_throttle"%string kwargs2)].
Proof.
  intros Hid Hc Hran Hh Hh' Hreg Hnf Ht Hlim.
  assert (self_id self ≠ next) as Hne by lia.
  assert (passes (Throttle_call self (Method m) next) args1 kwargs1 st0 = true)
    as Hp1 by (apply executed_passes; by rewrite Hc).
  destruct (decorated_passes _ _ _ _ _ _ Hp1) as (Ho1 & _ & _).
  rewrite Hc in Ho1. split; [done|].
  destruct (decorated_passes_top _ _ _ _ _ _ Hp1) as (h & Hh1 & _ & _).
  pose proof (decorated_top_stamped _ _ _ _ _ _ _ _ _ Hc Hran Hh1) as Hs.
  rewrite Hh1 in Hh.
  assert (passes (Throttle_call self (Method m) next) args2 kwargs2 st2 = true)
    as Hp2.
  { destruct (limit_no_throttle self) as [limit|] eqn:Hl.
    - destruct (secondary_host_exists _ _ _ _ _ _ Hl Hh1) as [h1 Hs1].
      pose proof (secondary_stamped _ _ _ _ _ _ _ _ _ _ Hl Hne Hc Hran Hs1)
        as Hs'.
      rewrite Hs1 in Hh'.
      apply (passes_nested _ _ _ limit _ _ _ h h1); try done;
        rewrite ?gate_open_elapsed, ?(entry_at_throttles _ _ _ _ Hreg),
          ?Hs, ?Hs'; try done; unfold elapsed; simpl.
      + rewrite orb_true_iff. right. apply Z.ltb_lt. lia.
      + apply Z.ltb_lt. by apply Hlim.
    - apply (passes_plain _ _ _ _ _ _ h); try done;
        rewrite ?gate_open_elapsed, ?(entry_at_throttles _ _ _ _ Hreg), ?Hs;
        try done; unfold elapsed; simpl.
      rewrite orb_true_iff. right. apply Z.ltb_lt. lia. }
  by destruct (decorated_passes _ _ _ _ _ _ Hp2) as (? & ? & _).
Qed.

(** C3.  A call with [no_throttle] set that gets the lock: without a second
    interval it runs the real method whatever the time recorded; with a
    second interval whose entry holds a time not more than that interval
    ago, it returns what [throttled_value] returns and the real method is
    not run. *)
Theorem forced_call_and_its_limit self m next args kwargs st h :
  top_host (Throttle_call self (Method m) next) args = Some h →
  lock (entry_at h (self_id self) st) = false →
  truthy (no_throttle kwargs) = true →
  (limit_no_throttle self = None →
     fst (call (Throttle_call self (Method m) next) args kwargs st)
     = fst (invoke m args (delete "no_throttle"%string kwargs) st)
     ∧ ran (snd (call (Throttle_call self (Method m) next) args kwargs st))
       = ran st ++ [(args, delete "no_throttle"%string kwargs)])
  ∧ (∀ limit h1 t,
       limit_no_throttle self = Some limit →
       top_host (wrapped (Throttle_call self (Method m) next)) args = Some h1 →
       last (entry_at h1 next st) = Some t →
       clock st - t ≤ limit →
       fst (call (Throttle_call self (Method m) next) args kwargs st)
       = fst (throttled_value (iscoroutinefunction (Method m)) st)
       ∧ ran (snd (call (Throttle_call self (Method m) next) args kwargs st))
         = ran st).
Proof.
  intros Hh Hl Hf.
  assert (gate_open self kwargs (entry_at h (self_id self) st) (clock st) = true)
    as Hg by (by rewrite gate_open_elapsed, Hf).
  split.
  - intros Hlim.
    pose proof (passes_plain _ _ _ _ _ _ _ Hlim Hh Hl Hg) as Hp.
    by destruct (decorated_passes _ _ _ _ _ _ Hp) as (? & ? & _).
  - intros limit h1 t Hlim. revert Hh.
    rewrite (Throttle_call_nested _ _ _ limit) by done.
    unfold make_wrapper, Throttle_init. cbn [wrapped].
    intros Hh%top_host_Some Hh1%top_host_Some Ht Hle.
    rewrite (wrapper_result _ _ _ _ _ _ _ _ h) by done.
    set (s := upd_entry h (self_id self) acquired (prepared h (self_id self) st)).
    cbn [fst snd].
    assert (call (Wrapper (next + 1) (MkThrottle next limit None)
                    (iscoroutinefunction (Method m))
                    (negb (bool_decide (is_Some (callable_self (Method m))))
                     && plain_function_name (callable_qualname (Method m)))
                    (Method m))
                 args (delete "no_throttle"%string kwargs) s
            = throttled_value (iscoroutinefunction (Method m)) s) as ->.
    { cbn [call].
      destruct (decide (h = h1 ∧ self_id self = next)) as [[-> Heq]|Hne].
      - apply (wrapper_locked _ _ _ _ _ _ h1); [done|]. cbn [self_id].
        unfold s. rewrite <- Heq, entry_at_acquire, decide_True by done. done.
      - apply (wrapper_closed _ _ _ _ _ _ h1); [done|]. cbn [self_id].
        unfold s. rewrite entry_at_acquire, decide_False by done.
        rewrite gate_open_elapsed, no_throttle_delete, clock_acquire.
        unfold elapsed. rewrite Ht. cbn [min_time truthy orb].
        apply Z.ltb_ge. lia. }
    assert (same_program s st) as Hs.
    { eapply same_program_trans;
        [apply same_program_upd|apply same_program_prepared]. }
    rewrite (throttled_value_same_program _ _ _ Hs).
    split; [done|].
    destruct (fst (throttled_value _ st));
      cbn; rewrite throttled_value_ran; by destruct Hs as (_&_&_&_&->).
Qed.

(** C4.  On a host where no layer of the call has an entry yet, a call that
    reaches the lock runs the real method and returns what it returns,
    whatever [min_time] is and whatever the keyword arguments are. *)
Theorem first_call_on_fresh_host_runs self m next args kwargs st h :
  (self_id self < next)%positive →
  top_host (Throttle_call self (Method m) next) args = Some h →
  (∀ h' k, (h', k) ∈ layers (Throttle_call self (Method m) next) args →
           get_entry h' k st = None) →
  fst (call (Throttle_call self (Method m) next) args kwargs st)
  = fst (invoke m args (delete "no_throttle"%string kwargs) st)
  ∧ ran (snd (call (Throttle_call self (Method m) next) args kwargs st))
    = ran st ++ [(args, delete "no_throttle"%string kwargs)].
Proof.
  intros Hid Hh Hfresh.
  assert (self_id self ≠ next) as Hne by lia.
  assert (∀ h' k, (h', k) ∈ layers (Throttle_call self (Method m) next) args →
                  entry_at h' k st = fresh_entry) as Hfresh'.
  { intros h' k Hin. unfold entry_at. by rewrite (Hfresh _ _ Hin). }
  assert (passes (Throttle_call self (Method m) next) args kwargs st = true)
    as Hp.
  { destruct (limit_no_throttle self) as [limit|] eqn:Hl.
    - destruct (secondary_host_exists _ _ _ _ _ _ Hl Hh) as [h1 Hs1].
      apply (passes_nested _ _ _ limit _ _ _ h h1); try done;
        rewrite ?gate_open_elapsed,
          ?(Hfresh' _ _ (layers_top _ _ _ _ _ Hh)),
          ?(Hfresh' _ _ (layers_secondary _ _ _ _ _ _ _ Hl Hh Hs1));
        try done.
      by rewrite orb_true_r.
    - apply (passes_plain _ _ _ _ _ _ h); try done;
        rewrite ?gate_open_elapsed, ?(Hfresh' _ _ (layers_top _ _ _ _ _ Hh));
        try done.
      by rewrite orb_true_r. }
  by destruct (decorated_passes _ _ _ _ _ _ Hp) as (? & ? & _).
Qed.


(** C10.  For a plain (not coroutine) method: the time an executed call
    records is the clock when the real method came back, not the clock when
    the call began; and a later call without [no_throttle] runs the real
    method only if it begins more than [min_time] after that recorded
    time. *)
Theorem spacing_is_measured_from_completion
    self m next run args1 kwargs1 st0 v st1 h :
  m_body m = SyncBody run →
  call (Throttle_call self (Method m) next) args1 kwargs1 st0
  = (Return v, st1) →
  ran st1 ≠ ran st0 →
  top_host (Throttle_call self (Method m) next) args1 = Some h →
  let finished :=
    snd (fst (run args1 (delete "no_throttle"%string kwargs1)
                  (clock st0) (world st0))) in
  last (entry_at h (self_id self) st1) = Some finished
  ∧ ∀ args2 kwargs2 st2,
      top_host (Throttle_call self (Method m) next) args2 = Some h →
      entry_at h (self_id self) st2 = entry_at h (self_id self) st1 →
      truthy (no_throttle kwargs2) = false →
      ran (snd (call (Throttle_call self (Method m) next) args2 kwargs2 st2))
      ≠ ran st2 →
      min_time self < clock st2 - finished.
Proof.
  intros Hbody Hc Hran Hh finished.
  pose proof (decorated_top_stamped _ _ _ _ _ _ _ _ _ Hc Hran Hh) as Hs.
  assert (clock st1 = finished) as Hfin.
  { assert (passes (Throttle_call self (Method m) next) args1 kwargs1 st0
            = true) as Hp by (apply executed_passes; by rewrite Hc).
    destruct (decorated_passes _ _ _ _ _ _ Hp) as (_ & _ & Hsame).
    rewrite Hc in Hsame. cbn [snd] in Hsame. destruct Hsame as (-> & _).
    unfold finished, invoke. rewrite Hbody. simpl.
    by destruct (run _ _ _ _) as [[o now] w]. }
  rewrite Hs, <- Hfin. split; [done|].
  intros args2 kwargs2 st2 Hh2 He Hnf Hran2.
  pose proof (executed_passes _ _ _ _ Hran2) as Hp2.
  destruct (decorated_passes_top _ _ _ _ _ _ Hp2) as (h' & Hh' & _ & Hg).
  rewrite Hh2 in Hh'. inversion Hh'; subst h'.
  rewrite gate_open_elapsed, Hnf, He in Hg. unfold elapsed in Hg.
  simpl in Hg. by apply Z.ltb_lt in Hg.
Qed.


(** C8, on the code.  After an executed call of the throttled method on an
    instance, the time of the call is in the [_throttle] dictionary of the
    instance, under the identity of the [Throttle] object; the wrapper
    (object 3) has no attribute at all, [last_call] included. *)
Theorem wrapper_has_no_last_call_attribute :
  let st1 := snd (call update_10 [PObj device_a] ∅ boot) in
  ran st1 ≠ ran boot
  ∧ get_entry device_a (self_id every_10) st1 = Some (Entry false (Some 3))
  ∧ getattr 3 "last_call" st1 = None
  ∧ getattr 3 "_throttle" st1 = None
  ∧ attrs st1 = ∅.
Proof.
  vm_compute. repeat split; discriminate.
Qed.

(** C5, as the code has it.  A call turned down at the outer wrapper (lock
    held, or not forced and too early) returns what [throttled_value]
    returns and leaves the registry as it was.  When a call changes the time
    recorded in an entry, the call returned normally and either it ran the
    real method, or a second interval is set, the inner wrapper turned the
    call down, and the entry is the outer one, which the outer wrapper had
    let the call through and now holds the present time. *)
Theorem last_success_changes_only_past_the_gate self m next args kwargs st :
  (self_id self < next)%positive →
  let r := call (Throttle_call self (Method m) next) args kwargs st in
  (∀ h, top_host (Throttle_call self (Method m) next) args = Some h →
        lock (entry_at h (self_id self) st) = true
        ∨ gate_open self kwargs (entry_at h (self_id self) st) (clock st)
          = false →
        r = throttled_value (iscoroutinefunction (Method m)) st
        ∧ throttles (snd r) = throttles st)
  ∧ (∀ h k,
       last (entry_at h k (snd r)) ≠ last (entry_at h k st) →
       (∃ v, fst r = Return v)
       ∧ (ran (snd r) = ran st ++ [(args, delete "no_throttle"%string kwargs)]
          ∨ (ran (snd r) = ran st
             ∧ is_Some (limit_no_throttle self)
             ∧ top_host (Throttle_call self (Method m) next) args = Some h
             ∧ k = self_id self
             ∧ lock (entry_at h k st) = false
             ∧ gate_open self kwargs (entry_at h k st) (clock st) = true
             ∧ last (entry_at h k (snd r)) = Some (clock st)))).
Proof.
  intros Hid r. assert (self_id self ≠ next) as Hne by lia. split.
  - intros h Hh Hrej. unfold r.
    rewrite (decorated_rejects _ _ _ _ _ _ h) by done.
    split; [done|apply throttled_value_throttles].
  - intros h k Hch.
    assert (∃ v, fst r = Return v) as Hret.
    { destruct (fst r) as [v|e] eqn:Hr; [by eexists|].
      destruct Hch. unfold r. by rewrite (call_raise_entries _ _ _ _ _ Hr). }
    split; [done|].
    destruct (passes (Throttle_call self (Method m) next) args kwargs st)
      eqn:Hp.
    + left. by destruct (decorated_passes _ _ _ _ _ _ Hp) as (_ & ? & _).
    + right.
      assert (entry_at h k (snd r) ≠ entry_at h k st) as Hch'
        by (intros Heq; by rewrite Heq in Hch).
      destruct (rejected_entries _ _ _ _ _ _ _ _ Hne Hp Hch')
        as (? & ? & ? & ? & ? & He).
      repeat split; try done.
      * unfold r. by rewrite call_ran, Hp.
      * unfold r. by rewrite He.
Qed.


End Claims.

(** * The claims on the small program *)

(** C1 at work: [update] under [Throttle(10)] runs at time 0 and comes back
    at 3; the call made at time 9 is turned down. *)
Lemma second_call_within_interval_is_throttled_witness :
  let st1 := snd (call update_10 [PObj device_a] ∅ boot) in
  let st2 := set_clock 9 st1 in
  (call update_10 [PObj device_a] ∅ boot = (Return (PInt 7), st1)
   ∧ ran st1 ≠ ran boot
   ∧ clock st2 - clock st1 < min_time every_10)
  ∧ last (entry_at device_a 1 st1) = Some 3
  ∧ call update_10 [PObj device_a] ∅ st2 = (Return PNone, st2).
Proof.
  intros st1 st2.
  assert (call update_10 [PObj device_a] ∅ boot = (Return (PInt 7), st1))
    as H1 by (vm_compute; reflexivity).
  assert (ran st1 ≠ ran boot) as H2 by (vm_compute; discriminate).
  assert (clock st2 - clock st1 < min_time every_10) as H3
    by (vm_compute; reflexivity).
  split; [done|].
  destruct (second_call_within_interval_is_throttled
              every_10 update 3 [PObj device_a] ∅ boot (PInt 7) st1 device_a
              [PObj device_a] ∅ st2 H1 H2 ltac:(vm_compute; reflexivity) ltac:(vm_compute; reflexivity) ltac:(vm_compute; reflexivity) ltac:(vm_compute; reflexivity) H3)
    as (Ha & Hb & _).
  split; [exact Ha|exact Hb].
Defined.

(** C2 as stated fails, twice.  Under [Throttle(10)] the call made exactly
    [min_time] after the first one came back is turned down, although the
    real method would return 7.  Under [Throttle(10, 100)] so is the call
    made 20 time units after, which the second interval stops. *)
Lemma call_at_exactly_min_time_is_throttled :
  let st1 := snd (call update_10 [PObj device_a] ∅ boot) in
  let st2 := set_clock (clock st1 + min_time every_10) st1 in
  let st1' := snd (call update_10_100 [PObj device_a] ∅ boot) in
  let st2' := set_clock (clock st1' + 20) st1' in
  (fst (call update_10 [PObj device_a] ∅ boot) = Return (PInt 7)
   ∧ ran st1 ≠ ran boot
   ∧ clock st2 - clock st1 >= min_time every_10
   ∧ fst (call update_10 [PObj device_a] ∅ st2) = Return PNone
   ∧ ran (snd (call update_10 [PObj device_a] ∅ st2)) = ran st2
   ∧ fst (invoke update [PObj device_a] ∅ st2) = Return (PInt 7))
  ∧ (fst (call update_10_100 [PObj device_a] ∅ boot) = Return (PInt 7)
     ∧ ran st1' ≠ ran boot
     ∧ clock st2' - clock st1' >= min_time every_10_forced_100
     ∧ fst (call update_10_100 [PObj device_a] ∅ st2') = Return PNone
     ∧ ran (snd (call update_10_100 [PObj device_a] ∅ st2')) = ran st2').
Proof.
  vm_compute. repeat split; discriminate.
Qed.

(** C2 as amended at work, with a second interval: [update] under
    [Throttle(10, 100)] comes back at 3; the call at 104 runs it again. *)
Lemma second_call_after_interval_runs_witness :
  let st1 := snd (call update_10_100 [PObj device_a] ∅ boot) in
  let st2 := set_clock 104 st1 in
  ((self_id every_10_forced_100 < 4)%positive
   ∧ call update_10_100 [PObj device_a] ∅ boot = (Return (PInt 7), st1)
   ∧ ran st1 ≠ ran boot
   ∧ min_time every_10_forced_100 < clock st2 - clock st1
   ∧ 100 < clock st2 - clock st1)
  ∧ fst (call update_10_100 [PObj device_a] ∅ st2) = Return (PInt 7)
  ∧ ran (snd (call update_10_100 [PObj device_a] ∅ st2))
    = ran st2 ++ [([PObj device_a], ∅)].
Proof.
  intros st1 st2.
  assert ((self_id every_10_forced_100 < 4)%positive) as H0 by reflexivity.
  assert (call update_10_100 [PObj device_a] ∅ boot = (Return (PInt 7), st1))
    as H1 by (vm_compute; reflexivity).
  assert (ran st1 ≠ ran boot) as H2 by (vm_compute; discriminate).
  assert (min_time every_10_forced_100 < clock st2 - clock st1) as H3
    by (vm_compute; reflexivity).
  assert (100 < clock st2 - clock st1) as H4 by (vm_compute; reflexivity).
  split; [done|].
  assert (∀ limit, limit_no_throttle every_10_forced_100 = Some limit →
                   limit < clock st2 - clock st1) as H5.
  { intros limit Hl. injection Hl as <-. exact H4. }
  destruct (second_call_after_interval_runs
              every_10_forced_100 update 4 [PObj device_a] ∅ boot (PInt 7) st1
              [PObj device_a] ∅ st2 H0 H1 H2 ltac:(vm_compute; reflexivity) ltac:(vm_compute; reflexivity) ltac:(vm_compute; reflexivity) ltac:(vm_compute; reflexivity)
              H3 H5) as (_ & Ha & Hb).
  split; [exact Ha|exact Hb].
Defined.

(** C3 at work: a forced call two time units after [update] came back runs
    under [Throttle(10)]; under [Throttle(10, 100)] a forced call 47 time
    units after is turned down by the second interval. *)
Lemma forced_call_and_its_limit_witness :
  let st1 := set_clock 5 (snd (call update_10 [PObj device_a] ∅ boot)) in
  let st2 := set_clock 50 (snd (call update_10_100 [PObj device_a] ∅ boot)) in
  (lock (entry_at device_a 1 st1) = false
   ∧ truthy (no_throttle forced) = true
   ∧ last (entry_at device_a 4 st2) = Some 3
   ∧ clock st2 - 3 ≤ 100)
  ∧ fst (call update_10 [PObj device_a] forced st1) = Return (PInt 7)
  ∧ ran (snd (call update_10 [PObj device_a] forced st1))
    = ran st1 ++ [([PObj device_a], ∅)]
  ∧ fst (call update_10_100 [PObj device_a] forced st2) = Return PNone
  ∧ ran (snd (call update_10_100 [PObj device_a] forced st2)) = ran st2.
Proof.
  intros st1 st2.
  assert (clock st2 - 3 ≤ 100) as Hle by (vm_compute; discriminate).
  split; [by repeat split|].
  destruct (forced_call_and_its_limit every_10 update 3 [PObj device_a]
              forced st1 device_a ltac:(vm_compute; reflexivity) ltac:(vm_compute; reflexivity) ltac:(vm_compute; reflexivity)) as [Ha _].
  destruct (Ha ltac:(vm_compute; reflexivity)) as [Ha1 Ha2].
  destruct (forced_call_and_its_limit every_10_forced_100 update 4
              [PObj device_a] forced st2 device_a ltac:(vm_compute; reflexivity) ltac:(vm_compute; reflexivity) ltac:(vm_compute; reflexivity))
    as [_ Hb].
  destruct (Hb 100 device_a 3 ltac:(vm_compute; reflexivity) ltac:(vm_compute; reflexivity) ltac:(vm_compute; reflexivity) Hle) as [Hb1 Hb2].
  split; [exact Ha1|]. split; [exact Ha2|]. split; [exact Hb1|exact Hb2].
Defined.

(** C4 at work: the first call on a new instance runs, also with a second
    interval. *)
Lemma first_call_on_fresh_host_runs_witness :
  ((self_id every_10_forced_100 < 4)%positive
   ∧ top_host update_10_100 [PObj device_a] = Some device_a
   ∧ ∀ h k, get_entry h k boot = None)
  ∧ fst (call update_10_100 [PObj device_a] ∅ boot) = Return (PInt 7)
  ∧ ran (snd (call update_10_100 [PObj device_a] ∅ boot))
    = [([PObj device_a], ∅)].
Proof.
  assert (∀ h k, get_entry h k boot = None) as Hfresh by reflexivity.
  split; [by repeat split|].
  destruct (first_call_on_fresh_host_runs every_10_forced_100 update 4
              [PObj device_a] ∅ boot device_a ltac:(vm_compute; reflexivity) ltac:(vm_compute; reflexivity)
              (λ h k _, Hfresh h k)) as [Ha Hb].
  split; [exact Ha|exact Hb].
Defined.

(** C5 as stated fails: under [Throttle(10, 100)], [update] came back at 3;
    the call at 50 passes the first interval and is turned down by the
    second.  It returns [None] and the real method is not run, yet the time
    recorded in the outer entry moves from 3 to 50.  The inner entry keeps
    its time. *)
Lemma secondary_rejection_moves_the_primary_time :
  let st1 := set_clock 50 (snd (call update_10_100 [PObj device_a] ∅ boot)) in
  let r := call update_10_100 [PObj device_a] ∅ st1 in
  fst r = Return PNone
  ∧ ran (snd r) = ran st1
  ∧ last (entry_at device_a (self_id every_10_forced_100) st1) = Some 3
  ∧ last (entry_at device_a (self_id every_10_forced_100) (snd r)) = Some 50
  ∧ last (entry_at device_a 4 (snd r)) = Some 3.
Proof.
  vm_compute. by repeat split.
Qed.

(** C5 as amended at work, on the same run: the changed time is explained by
    the second case of the theorem. *)
Lemma last_success_changes_only_past_the_gate_witness :
  let st1 := set_clock 50 (snd (call update_10_100 [PObj device_a] ∅ boot)) in
  let r := call update_10_100 [PObj device_a] ∅ st1 in
  ((self_id every_10_forced_100 < 4)%positive
   ∧ last (entry_at device_a 2 (snd r)) ≠ last (entry_at device_a 2 st1))
  ∧ (∃ v, fst r = Return v)
  ∧ (ran (snd r) = ran st1 ++ [([PObj device_a], ∅)]
     ∨ ran (snd r) = ran st1
       ∧ last (entry_at device_a 2 (snd r)) = Some (clock st1)).
Proof.
  intros st1 r.
  assert ((self_id every_10_forced_100 < 4)%positive) as H0 by reflexivity.
  assert (last (entry_at device_a 2 (snd r)) ≠ last (entry_at device_a 2 st1))
    as H1 by (vm_compute; discriminate).
  split; [done|].
  destruct (last_success_changes_only_past_the_gate every_10_forced_100
              update 4 [PObj device_a] ∅ st1 H0) as [_ Hb].
  destruct (Hb device_a 2%positive H1) as [Hret Hcase].
  split; [exact Hret|].
  destruct Hcase as [Hran|(Hran & _ & _ & _ & _ & _ & Hlast)].
  - left. exact Hran.
  - right. split; [exact Hran|exact Hlast].
Defined.





(** C10 at work: [update] begins at 0 and comes back at 3; the time recorded
    is 3, and a call that runs the real method again begins after 13. *)
Lemma spacing_is_measured_from_completion_witness :
  let st1 := snd (call update_10 [PObj device_a] ∅ boot) in
  let st2 := set_clock 14 st1 in
  (call update_10 [PObj device_a] ∅ boot = (Return (PInt 7), st1)
   ∧ ran st1 ≠ ran boot
   ∧ ran (snd (call update_10 [PObj device_a] ∅ st2)) ≠ ran st2)
  ∧ clock boot = 0
  ∧ last (entry_at device_a 1 st1) = Some 3
  ∧ min_time every_10 < clock st2 - 3.
Proof.
  intros st1 st2.
  assert (call update_10 [PObj device_a] ∅ boot = (Return (PInt 7), st1))
    as H1 by (vm_compute; reflexivity).
  assert (ran st1 ≠ ran boot) as H2 by (vm_compute; discriminate).
  assert (ran (snd (call update_10 [PObj device_a] ∅ st2)) ≠ ran st2) as H3
    by (vm_compute; discriminate).
  split; [done|]. split; [reflexivity|].
  destruct (spacing_is_measured_from_completion every_10 update 3
              (λ _ _ now w, (Return (PInt 7), now + 3, w))
              [PObj device_a] ∅ boot (PInt 7) st1 device_a
              ltac:(reflexivity) H1 H2 ltac:(vm_compute; reflexivity))
    as [Ha Hb].
  split; [exact Ha|].
  exact (Hb [PObj device_a] ∅ st2 ltac:(vm_compute; reflexivity)
            ltac:(vm_compute; reflexivity) ltac:(vm_compute; reflexivity) H3).
Defined.

(** * Further properties of [python_mpd/utils.py] *)

Section Wrappers.

Context {W : Type}.
Implicit Types (st : state W) (m : pymethod W) (c : callable W)
  (args : list pyval) (kwargs : gmap string pyval) (h k : obj)
  (self : Throttle).

(** A call that does not go through leaves the clock and the program's
    state alone. *)
Lemma call_rejected_program c : ∀ args kwargs st,
  passes c args kwargs st = false →
  clock (snd (call c args kwargs st)) = clock st
  ∧ world (snd (call c args kwargs st)) = world st.
Proof.
  induction c as [m|wrapper_id self is_async is_func c IH];
    intros args kwargs st Hp; [done|].
  cbn [passes] in Hp.
  destruct (top_host (Wrapper wrapper_id self is_async is_func c) args)
    as [h|] eqn:Hh.
  2:{ cbn [call]. rewrite wrapper_no_dict; [done|].
      exact (top_host_None _ _ _ _ _ _ Hh). }
  apply top_host_Some in Hh.
  destruct (lock (entry_at h (self_id self) st)) eqn:Hl.
  { cbn [call]. rewrite (wrapper_locked _ _ _ _ _ _ h) by done.
    unfold throttled_value. by destruct is_async. }
  destruct (gate_open self kwargs (entry_at h (self_id self) st) (clock st))
    eqn:Hg.
  2:{ cbn [call]. rewrite (wrapper_closed _ _ _ _ _ _ h) by done.
      unfold throttled_value. by destruct is_async. }
  rewrite (wrapper_result _ _ _ _ _ _ _ _ h) by done. cbn [snd].
  simpl in Hp. destruct (IH _ _ _ Hp) as [Hc Hw].
  destruct (same_program_prepared h (self_id self) st) as (Hc' & Hw' & _).
  destruct (fst (call c args _ _)); simpl in *; split; congruence.
Qed.

(** The keys a decorated method uses: [id(self)] and, with a second
    interval, the identity of the nested [Throttle]. *)
Lemma layers_keys self m next args h k :
  (h, k) ∈ layers (Throttle_call self (Method m) next) args →
  k = self_id self ∨ k = next.
Proof.
  unfold Throttle_call, make_wrapper, Throttle_init.
  destruct (limit_no_throttle self); cbn [layers];
    repeat match goal with
           | |- context [top_host ?c args] => destruct (top_host c args)
           end;
    intros Hin;
    repeat (apply elem_of_cons in Hin as [Heq|Hin];
            [inversion Heq; subst; auto|]);
    by apply elem_of_nil in Hin.
Qed.

(** What the inner wrapper found when a call went through both. *)
Lemma passes_nested_inv self m next limit args kwargs st :
  limit_no_throttle self = Some limit →
  self_id self ≠ next →
  passes (Throttle_call self (Method m) next) args kwargs st = true →
  ∃ h1, top_host (wrapped (Throttle_call self (Method m) next)) args = Some h1
      ∧ lock (entry_at h1 next st) = false
      ∧ elapsed limit (entry_at h1 next st) (clock st) = true.
Proof.
  intros Hlim Hne. rewrite (Throttle_call_nested _ _ _ limit) by done.
  unfold make_wrapper, Throttle_init. cbn [wrapped].
  intros (h2 & Hh2 & Hl2 & Hg2 & Hin)%passes_Wrapper.
  apply passes_Wrapper in Hin as (h1 & Hh1 & Hl1 & Hg1 & _).
  cbn [self_id] in *. exists h1.
  rewrite entry_at_acquire, decide_False in Hl1, Hg1
    by (intros [_ ?]; done).
  rewrite gate_open_elapsed, no_throttle_delete, clock_acquire in Hg1.
  split; [by apply top_host_Some|]. by split.
Qed.

Lemma top_host_plain_function self m next args :
  m_self m = None →
  plain_function_name (m_qualname m) = true →
  top_host (Throttle_call self (Method m) next) args
  = Some (match limit_no_throttle self with
          | Some _ => (next + 2)%positive
          | None => next
          end).
Proof.
  intros Hself Hname. unfold Throttle_call, make_wrapper.
  destruct (limit_no_throttle self);
    cbn [top_host callable_self callable_qualname resolve_host];
    by rewrite ?Hself, ?Hname.
Qed.

Lemma top_host_bound_method self m next r args :
  limit_no_throttle self = None →
  m_self m = Some r →
  top_host (Throttle_call self (Method m) next) args = Some r.
Proof.
  intros Hlim Hself. unfold Throttle_call, make_wrapper. rewrite Hlim.
  cbn [top_host callable_self resolve_host]. by rewrite Hself.
Qed.

(** When every call resolves the same host, a call that is not forced and
    comes not more than [min_time] after an executed one is turned down,
    whatever its arguments. *)
Lemma one_host_for_all_arguments self m next h0 args1 kwargs1 st0 v st1
    args2 kwargs2 st2 :
  (∀ args, top_host (Throttle_call self (Method m) next) args = Some h0) →
  call (Throttle_call self (Method m) next) args1 kwargs1 st0
  = (Return v, st1) →
  ran st1 ≠ ran st0 →
  throttles st2 = throttles st1 →
  truthy (no_throttle kwargs2) = false →
  clock st2 - clock st1 ≤ min_time self →
  call (Throttle_call self (Method m) next) args2 kwargs2 st2
  = throttled_value (iscoroutinefunction (Method m)) st2.
Proof.
  intros Hhost Hc Hran Hreg Hnf Ht.
  pose proof (decorated_top_stamped _ _ _ _ _ _ _ _ _ Hc Hran (Hhost args1))
    as Hs.
  apply (decorated_rejects _ _ _ _ _ _ h0); [done|]. right.
  rewrite gate_open_elapsed, Hnf, (entry_at_throttles _ _ _ _ Hreg), Hs.
  unfold elapsed; simpl. apply Z.ltb_ge. lia.
Qed.

(** X1.  A call runs the real method at most once.  When it does not, the
    clock and the program's state are as before.  When it does, the real
    method gets the positional arguments as they came and the keyword
    arguments without [no_throttle], every other key as it came. *)
Theorem real_method_runs_at_most_once self m next args kwargs st :
  let st' := snd (call (Throttle_call self (Method m) next) args kwargs st) in
  (ran st' = ran st ∧ clock st' = clock st ∧ world st' = world st)
  ∨ (∃ kw, ran st' = ran st ++ [(args, kw)]
         ∧ kw !! "no_throttle"%string = None
         ∧ ∀ key, key ≠ "no_throttle"%string → kw !! key = kwargs !! key).
Proof.
  intros st'. unfold st'.
  destruct (passes (Throttle_call self (Method m) next) args kwargs st)
    eqn:Hp.
  - right. exists (delete "no_throttle"%string kwargs).
    destruct (decorated_passes _ _ _ _ _ _ Hp) as (_ & -> & _).
    split; [done|]. split; [apply lookup_delete_eq|].
    intros key Hkey. by apply lookup_delete_ne.
  - left. rewrite call_ran, Hp.
    destruct (call_rejected_program _ _ _ _ Hp) as [-> ->]. done.
Qed.

(** X2.  The real method runs exactly when the outer wrapper finds a host
    with its lock free and the call is forced or the interval is over (or no
    time is recorded) and, with a second interval, the inner wrapper finds
    its lock free and the second interval over (or no time recorded).  The
    second interval stops calls that are not forced as well. *)
Theorem real_method_runs_exactly_when_the_gates_are_open
    self m next args kwargs st :
  (self_id self < next)%positive →
  ran (snd (call (Throttle_call self (Method m) next) args kwargs st)) ≠ ran st
  ↔ ∃ h,
      top_host (Throttle_call self (Method m) next) args = Some h
      ∧ lock (entry_at h (self_id self) st) = false
      ∧ (truthy (no_throttle kwargs) = true
         ∨ elapsed (min_time self) (entry_at h (self_id self) st) (clock st)
           = true)
      ∧ ∀ limit, limit_no_throttle self = Some limit →
          ∃ h1,
            top_host (wrapped (Throttle_call self (Method m) next)) args
            = Some h1
            ∧ lock (entry_at h1 next st) = false
            ∧ elapsed limit (entry_at h1 next st) (clock st) = true.
Proof.
  intros Hid. assert (self_id self ≠ next) as Hne by lia. split.
  - intros Hp%executed_passes.
    destruct (decorated_passes_top _ _ _ _ _ _ Hp) as (h & Hh & Hl & Hg).
    exists h. rewrite gate_open_elapsed in Hg.
    apply orb_true_iff in Hg. repeat split; try done.
    intros limit Hlim. by apply (passes_nested_inv _ _ _ limit _ kwargs).
  - intros (h & Hh & Hl & Hg & Hsec).
    assert (gate_open self kwargs (entry_at h (self_id self) st) (clock st)
            = true) as Hg'
      by (rewrite gate_open_elapsed; by apply orb_true_iff).
    assert (passes (Throttle_call self (Method m) next) args kwargs st = true)
      as Hp.
    { destruct (limit_no_throttle self) as [limit|] eqn:Hlim.
      - destruct (Hsec limit eq_refl) as (h1 & Hh1 & Hl1 & Hg1).
        by apply (passes_nested _ _ _ limit _ _ _ h h1).
      - by apply (passes_plain _ _ _ _ _ _ h). }
    rewrite call_ran, Hp. apply ran_neq_snoc.
Qed.

(** X3.  A function that is not a method has one entry for all its calls: a
    call that is not forced, made not more than [min_time] after an executed
    one, is turned down whatever arguments either call had. *)
Theorem plain_function_is_throttled_whatever_its_arguments
    self m next args1 kwargs1 st0 v st1 args2 kwargs2 st2 :
  m_self m = None →
  plain_function_name (m_qualname m) = true →
  call (Throttle_call self (Method m) next) args1 kwargs1 st0
  = (Return v, st1) →
  ran st1 ≠ ran st0 →
  throttles st2 = throttles st1 →
  truthy (no_throttle kwargs2) = false →
  clock st2 - clock st1 ≤ min_time self →
  call (Throttle_call self (Method m) next) args2 kwargs2 st2
  = throttled_value (iscoroutinefunction (Method m)) st2.
Proof.
  intros Hself Hname. eapply one_host_for_all_arguments.
  intros args. by apply top_host_plain_function.
Qed.

(** X4.  A bound method under a [Throttle] without second interval keeps its
    entry on the object it is bound to: its arguments play no part, and a
    call that is not forced, made not more than [min_time] after an executed
    one, is turned down whatever arguments either call had. *)
Theorem bound_method_is_throttled_on_its_receiver
    self m next r args1 kwargs1 st0 v st1 args2 kwargs2 st2 :
  limit_no_throttle self = None →
  m_self m = Some r →
  call (Throttle_call self (Method m) next) args1 kwargs1 st0
  = (Return v, st1) →
  ran st1 ≠ ran st0 →
  throttles st2 = throttles st1 →
  truthy (no_throttle kwargs2) = false →
  clock st2 - clock st1 ≤ min_time self →
  entry_at r (self_id self) st1 = Entry false (Some (clock st1))
  ∧ call (Throttle_call self (Method m) next) args2 kwargs2 st2
    = throttled_value (iscoroutinefunction (Method m)) st2.
Proof.
  intros Hlim Hself Hc Hran Hreg Hnf Ht. split.
  - apply (decorated_top_stamped _ _ _ _ _ _ _ _ _ Hc Hran).
    by apply top_host_bound_method.
  - eapply one_host_for_all_arguments; try done.
    intros args. by apply top_host_bound_method.
Qed.

(** X5.  A bound method under a [Throttle] with a second interval: the inner
    wrapper keeps its entry on the object the method is bound to, but the
    outer wrapper wraps a function without [__self__], so for a method of a
    class it takes the first positional argument as host (itself when there
    is none), and a call whose first argument cannot carry attributes raises
    [AttributeError] with nothing changed and nothing run. *)
Theorem bound_method_with_limit_takes_first_argument_as_host
    self m next limit r args kwargs st :
  limit_no_throttle self = Some limit →
  m_self m = Some r →
  plain_function_name (m_qualname m) = false →
  top_host (wrapped (Throttle_call self (Method m) next)) args = Some r
  ∧ top_host (Throttle_call self (Method m) next) args
    = match args with
      | [] => Some (next + 2)%positive
      | PObj a :: _ => Some a
      | _ :: _ => None
      end
  ∧ (top_host (Throttle_call self (Method m) next) args = None →
     call (Throttle_call self (Method m) next) args kwargs st
     = (Raise AttributeError, st)).
Proof.
  intros Hlim Hself Hname.
  rewrite (Throttle_call_nested _ _ _ limit) by done.
  unfold make_wrapper. cbn [wrapped].
  split; [|split].
  - cbn [top_host callable_self resolve_host]. by rewrite Hself.
  - cbn [top_host callable_self callable_qualname resolve_host].
    rewrite Hname, andb_false_r.
    destruct args as [|[] ?]; done.
  - intros Hnone. cbn [call]. apply wrapper_no_dict.
    exact (top_host_None _ _ _ _ _ _ Hnone).
Qed.

(** X6.  A method of a class called through the class: with a first argument
    that cannot carry attributes the call raises [AttributeError], nothing
    is changed and the method is not run; with no argument at all the
    wrapper itself is the host. *)
Theorem method_needs_a_receiver_that_takes_attributes
    self m next v rest kwargs st :
  m_self m = None →
  plain_function_name (m_qualname m) = false →
  (∀ a, v ≠ PObj a) →
  call (Throttle_call self (Method m) next) (v :: rest) kwargs st
  = (Raise AttributeError, st)
  ∧ top_host (Throttle_call self (Method m) next) []
    = Some (match limit_no_throttle self with
            | Some _ => (next + 2)%positive
            | None => next
            end).
Proof.
  intros Hself Hname Hv. unfold Throttle_call, make_wrapper. split.
  - destruct (limit_no_throttle self); cbn [call]; apply wrapper_no_dict;
      intros h; cbn [callable_self callable_qualname resolve_host];
      rewrite ?Hself, ?Hname, ?andb_false_r; simpl; apply Hv.
  - destruct (limit_no_throttle self);
      cbn [top_host callable_self callable_qualname resolve_host];
      by rewrite ?Hself, ?Hname, ?andb_false_r.
Qed.

(** X7.  The entry of a host is there after the first attempt, whether the
    call ran the method, was turned down or raised; and no call removes an
    entry. *)
Theorem entry_exists_after_first_attempt self m next args kwargs st h :
  top_host (Throttle_call self (Method m) next) args = Some h →
  is_Some (get_entry h (self_id self)
             (snd (call (Throttle_call self (Method m) next) args kwargs st)))
  ∧ ∀ h' k', is_Some (get_entry h' k' st) →
             is_Some (get_entry h' k'
               (snd (call (Throttle_call self (Method m) next) args kwargs st))).
Proof.
  intros Hh. split; [|intros h' k'; apply call_present].
  revert Hh.
  destruct (decorated_is_wrapper self m next) as (w & isf & c & -> & _).
  intros Hh%top_host_Some.
  destruct (lock (entry_at h (self_id self) st)) eqn:Hl.
  { cbn [call]. rewrite (wrapper_locked _ _ _ _ _ _ h) by done.
    unfold get_entry. rewrite throttled_value_throttles.
    unfold entry_at in Hl. fold (get_entry h (self_id self) st).
    by destruct (get_entry h (self_id self) st). }
  destruct (gate_open self kwargs (entry_at h (self_id self) st) (clock st))
    eqn:Hg.
  2:{ cbn [call]. rewrite (wrapper_closed _ _ _ _ _ _ h) by done.
      unfold get_entry. rewrite throttled_value_throttles.
      fold (get_entry h (self_id self) st).
      unfold gate_open, entry_at in Hg.
      destruct (get_entry h (self_id self) st); [done|].
      simpl in Hg. by rewrite orb_true_r in Hg. }
  rewrite (wrapper_result _ _ _ _ _ _ _ _ h) by done. cbn [snd].
  set (s := upd_entry h (self_id self) acquired (prepared h (self_id self) st)).
  assert (is_Some (get_entry h (self_id self)
            (snd (call c args (delete "no_throttle"%string kwargs) s))))
    as [e He].
  { apply call_present. unfold s. by rewrite get_entry_acquire, decide_True. }
  destruct (fst (call c args (delete "no_throttle"%string kwargs) s));
    rewrite !get_entry_upd_eq, He; by eexists.
Qed.

(** X8.  Two [Throttle] objects do not see each other, also on one host: a
    call under the first leaves the entries of the second as they were, and
    a call under the second then returns, and runs its method or not, as if
    the first call had left the registry untouched. *)
Theorem definitions_do_not_interfere
    self1 m1 next1 args1 kwargs1 self2 m2 next2 args2 kwargs2 st :
  self_id self2 ≠ self_id self1 →
  self_id self2 ≠ next1 →
  next2 ≠ self_id self1 →
  next2 ≠ next1 →
  let st1 :=
    snd (call (Throttle_call self1 (Method m1) next1) args1 kwargs1 st) in
  let untouched := set_throttles (throttles st) st1 in
  (∀ h, get_entry h (self_id self2) st1 = get_entry h (self_id self2) st
        ∧ get_entry h next2 st1 = get_entry h next2 st)
  ∧ fst (call (Throttle_call self2 (Method m2) next2) args2 kwargs2 st1)
    = fst (call (Throttle_call self2 (Method m2) next2) args2 kwargs2
                untouched)
  ∧ ran (snd (call (Throttle_call self2 (Method m2) next2) args2 kwargs2 st1))
    = ran (snd (call (Throttle_call self2 (Method m2) next2) args2 kwargs2
                     untouched)).
Proof.
  intros H1 H2 H3 H4 st1 untouched.
  assert (∀ h k, k ≠ self_id self1 → k ≠ next1 →
                 get_entry h k st1 = get_entry h k st) as Hframe.
  { intros h k Hk1 Hk2. apply call_frame.
    intros [?|?]%layers_keys; done. }
  split; [intros h; split; by apply Hframe|].
  assert (passes (Throttle_call self2 (Method m2) next2) args2 kwargs2 st1
          = passes (Throttle_call self2 (Method m2) next2) args2 kwargs2
                   untouched) as Hp.
  { apply passes_ext; [done|].
    intros h k Hin. unfold entry_at.
    apply layers_keys in Hin as [->| ->]; by rewrite Hframe. }
  assert (same_program st1 untouched) as Hs
    by apply same_program_sym, same_program_set_throttles.
  split.
  - rewrite !decorated_outcome, Hp.
    destruct (invoke_same_program m2 args2
                (delete "no_throttle"%string kwargs2) _ _ Hs) as [-> _].
    by rewrite (throttled_value_same_program _ _ _ Hs).
  - by rewrite !call_ran, Hp.
Qed.

(** X9.  Whatever a call does (run the method, turn the call down, raise),
    it leaves every lock as it found it: none is left held, none that
    another call holds is released. *)
Theorem every_lock_is_left_as_found (c : callable W) args kwargs st h k :
  lock (entry_at h k (snd (call c args kwargs st))) = lock (entry_at h k st).
Proof. apply call_locks. Qed.


(** X11.  [@Throttle] on top of an already throttled coroutine method sees a
    plain function ([wrapper] is a [def]): when it turns a call down it
    returns [None] itself, not a coroutine, and changes nothing. *)
Theorem stacked_throttle_returns_plain_none
    self1 self2 m next1 next2 pieces args kwargs st h :
  m_body m = AsyncBody pieces →
  let inner := Throttle_call self1 (Method m) next1 in
  top_host (Throttle_call self2 inner next2) args = Some h →
  lock (entry_at h (self_id self2) st) = true
  ∨ gate_open self2 kwargs (entry_at h (self_id self2) st) (clock st) = false →
  iscoroutinefunction (Method m) = true
  ∧ call (Throttle_call self2 inner next2) args kwargs st = (Return PNone, st).
Proof.
  intros Hbody inner Hh Hrej.
  assert (iscoroutinefunction inner = false) as Hplain.
  { unfold inner, Throttle_call, make_wrapper.
    by destruct (limit_no_throttle self1). }
  split; [unfold iscoroutinefunction; by rewrite Hbody|].
  revert Hh. unfold Throttle_call at 1 2. rewrite Hplain.
  unfold make_wrapper.
  destruct (limit_no_throttle self2); cbn [call top_host];
    match goal with
    | |- context [resolve_host ?a ?b ?c args] =>
        destruct (resolve_host a b c args) eqn:Hr; try done
    end;
    intros Heq; inversion Heq; subst;
    (destruct Hrej as [Hl|Hg];
     [by rewrite (wrapper_locked _ _ _ _ _ _ h)
     |by rewrite (wrapper_closed _ _ _ _ _ _ h)]).
Qed.

End Wrappers.

(** ** The test on [__qualname__] *)

Lemma list_ascii_of_string_app (s t : string) :
  list_ascii_of_string (String.append s t)
  = list_ascii_of_string s ++ list_ascii_of_string t.
Proof. induction s as [|c s IH]; simpl; [done|by rewrite IH]. Qed.

(** A separator begins with [".<"]. *)
Lemma starts_with_sep c rest :
  starts_with (list_ascii_of_string ".<locals>.") (c :: rest) = true →
  ∃ rest', rest = "<"%char :: rest'.
Proof.
  cbn [starts_with list_ascii_of_string].
  destruct (Ascii.eqb "." c); [|done].
  destruct rest as [|b rest']; [done|].
  destruct (Ascii.eqb "<" b) eqn:Hb; [|done].
  apply Ascii.eqb_eq in Hb as <-. by eexists.
Qed.

Lemma split_last_no_sep (s piece : list ascii) :
  existsb (Ascii.eqb "<"%char) s = false → split_last (list_ascii_of_string ".<locals>.") s 0 piece = piece ++ s.
Proof.
  revert piece. induction s as [|c s IH]; intros piece Hs.
  - by rewrite app_nil_r.
  - cbn [split_last].
    destruct (starts_with (list_ascii_of_string ".<locals>.") (c :: s)) eqn:Hst.
    + apply starts_with_sep in Hst as [rest' ->].
      cbn [existsb] in Hs. apply orb_false_elim in Hs as [_ Hs]. done.
    + cbn [existsb] in Hs. apply orb_false_elim in Hs as [_ Hs].
      rewrite IH by done. by rewrite <- app_assoc.
Qed.

Lemma split_last_segment (s t piece : list ascii) :
  existsb (Ascii.eqb "<"%char) s = false →
  split_last (list_ascii_of_string ".<locals>.") (s ++ (list_ascii_of_string ".<locals>.") ++ t) 0 piece
  = split_last (list_ascii_of_string ".<locals>.") t 0 [].
Proof.
  revert piece. induction s as [|c s IH]; intros piece Hs.
  - reflexivity.
  - cbn [existsb] in Hs. apply orb_false_elim in Hs as [_ Hs].
    change ((c :: s) ++ (list_ascii_of_string ".<locals>.") ++ t) with (c :: (s ++ (list_ascii_of_string ".<locals>.") ++ t)).
    cbn [split_last].
    destruct (starts_with (list_ascii_of_string ".<locals>.") (c :: s ++ (list_ascii_of_string ".<locals>.") ++ t)) eqn:Hst.
    + apply starts_with_sep in Hst as [rest' Hrest].
      destruct s as [|b s]; [done|].
      simpl in Hrest. inversion Hrest; subst. done.
    + by apply IH.
Qed.

(** X12.  For a qualified name made of pieces joined by [".<locals>."], none
    of them holding a ["<"], the test of line 58 looks at the last piece
    only: the name counts as a function's exactly when that piece has no
    dot.  So [f] and [outer.<locals>.f] are functions, [Cls.method] and
    [outer.<locals>.Cls.method] are not. *)
Theorem qualname_test_looks_at_the_last_piece (pieces : list string) :
  Forall (λ s, existsb (Ascii.eqb "<"%char) (list_ascii_of_string s) = false) pieces →
  pieces ≠ [] →
  plain_function_name (String.concat ".<locals>." pieces)
  = negb (has_dot (list_ascii_of_string (List.last pieces ""%string))).
Proof.
  unfold plain_function_name. intros Hall Hne. f_equal. f_equal.
  induction Hall as [|s rest Hs Hall IH]; [done|].
  destruct rest as [|s' rest].
  - simpl. by rewrite split_last_no_sep.
  - change (String.concat ".<locals>." (s :: s' :: rest))
      with (String.append s
              (String.append ".<locals>."
                 (String.concat ".<locals>." (s' :: rest)))).
    rewrite !list_ascii_of_string_app, split_last_segment by done.
    rewrite IH by done. done.
Qed.

Lemma qualname_test_looks_at_the_last_piece_witness :
  plain_function_name "setup.<locals>.poll" = true
  ∧ plain_function_name "setup.<locals>.MpdDevice.update" = false.
Proof.
  split.
  - apply (qualname_test_looks_at_the_last_piece ["setup"; "poll"]%string);
      [repeat constructor|discriminate].
  - apply (qualname_test_looks_at_the_last_piece
             ["setup"; "MpdDevice.update"]%string);
      [repeat constructor|discriminate].
Defined.

(** * Properties of [xiaomi_miio_smart_bulb/main.py] *)

(** X13.  [delayed_turn_off_timestamp] gives no time exactly when there is
    no countdown or the countdown is not positive; the time it gives is less
    than five seconds before and less than four seconds after the moment the
    countdown runs out, [current] plus the countdown. *)
Theorem turn_off_time_is_near_the_end_of_the_countdown
    (countdown : option Z) (current : Z) (previous : option Z) :
  (Bulb.delayed_turn_off_timestamp countdown current previous = None
   ↔ countdown = None ∨ ∃ n, countdown = Some n ∧ n ≤ 0)
  ∧ ∀ t, Bulb.delayed_turn_off_timestamp countdown current previous = Some t →
         ∃ n, countdown = Some n ∧ 0 < n
            ∧ current + Bulb.seconds n - Bulb.seconds 5 < t
              < current + Bulb.seconds n + Bulb.seconds 4.
Proof.
  unfold Bulb.delayed_turn_off_timestamp, Bulb.replace_microsecond_0,
    Bulb.seconds, Bulb.DELAYED_TURN_OFF_MAX_DEVIATION_SECONDS.
  pose proof (Z.mod_pos_bound current 1000000 ltac:(lia)) as Hmod.
  destruct countdown as [n|].
  2:{ split; [split; [by left|done]|done]. }
  destruct (Z.ltb_spec 0 n) as [Hn|Hn].
  - split.
    + split.
      * destruct previous as [p|]; [|done].
        by destruct (_ && _).
      * intros [?|(n' & Heq & Hle)]; [done|]. inversion Heq; subst. lia.
    + intros t Ht. exists n. split; [done|]. split; [done|].
      destruct previous as [p|].
      * destruct (_ && _) eqn:Hb in Ht.
        -- apply andb_true_iff in Hb as [H1%Z.ltb_lt H2%Z.ltb_lt].
           inversion Ht; subst. lia.
        -- inversion Ht; subst. lia.
      * inversion Ht; subst. lia.
  - split; [|done]. split; [|done]. intros _. right. exists n. by split.
Qed.



(** * Properties of [wifi_presence_detection/main.py] *)

(** X15.  [get_device_name] knows exactly the addresses [scan_devices]
    lists: it gives [None] exactly for a MAC address that no result has.
    The name it gives and the address [get_extra_attributes] gives come
    from one and the same result, the first with that MAC address. *)
Theorem device_name_is_known_for_listed_devices
    (self : Presence.NmapDeviceScanner) (device : string) :
  (Presence.get_device_name self device = None
   ↔ ¬ In device (map Presence.mac (Presence.last_results self)))
  ∧ ∀ first, Presence.get_device_name self device = Some first →
      ∃ result, In result (Presence.last_results self)
              ∧ Presence.mac result = device
              ∧ Presence.name result = first
              ∧ Presence.get_extra_attributes self device
                = {[ "ip"%string := Some (Presence.ip result) ]}.
Proof.
  unfold Presence.get_device_name, Presence.get_extra_attributes.
  destruct (List.filter _ (Presence.last_results self)) as [|r rest] eqn:Hf.
  - split; [|done]. split; [|done]. intros _ Hin.
    apply in_map_iff in Hin as (r & Hmac & Hin).
    assert (In r (List.filter
                    (λ result, String.eqb (Presence.mac result) device)
                    (Presence.last_results self))) as Hr.
    { apply filter_In. split; [done|]. by apply String.eqb_eq. }
    by rewrite Hf in Hr.
  - assert (In r (Presence.last_results self) ∧ Presence.mac r = device)
      as [Hin Hmac].
    { assert (In r (List.filter
                      (λ result, String.eqb (Presence.mac result) device)
                      (Presence.last_results self))) as Hr
        by (rewrite Hf; by left).
      apply filter_In in Hr as [? ?%String.eqb_eq]. done. }
    split.
    + split; [done|]. intros Hnot. destruct Hnot.
      apply in_map_iff. by exists r.
    + simpl. intros first Heq. inversion Heq; subst. by exists r.
Qed.

(** X16.  When [scanner.scan] raises [PortScannerError], [_update_info]
    returns [False] and changes nothing: [scan_devices] lists the addresses
    of the last results again, those older than [home_interval] too. *)
Theorem failed_scan_keeps_the_last_results
    (upper : string → string)
    (scan : string → string → option (list (string * Presence.host_info)))
    (now1 now2 : Z) (self : Presence.NmapDeviceScanner) :
  scan (String.concat " " (Presence.hosts self))
       (Presence.scan_arguments self now1) = None →
  Presence._update_info upper scan now1 now2 self = (false, self)
  ∧ Presence.scan_devices upper scan now1 now2 self
    = (map Presence.mac (Presence.last_results self), self).
Proof.
  intros Hscan. unfold Presence.scan_devices, Presence._update_info.
  by rewrite Hscan.
Qed.

Lemma kept_results (self : Presence.NmapDeviceScanner) (now : Z) d :
  In d (fst (Presence.kept_and_excluded self now))
  ↔ In d (Presence.last_results self)
    ∧ Presence.home_interval self ≠ 0
    ∧ now - Presence.home_interval self < Presence.last_update d.
Proof.
  unfold Presence.kept_and_excluded.
  destruct (Z.eqb_spec (Presence.home_interval self) 0) as [Hz|Hz]; simpl.
  { split; [done|]. by intros (_ & ? & _). }
  assert (In d (List.filter
                  (λ device, now - Presence.home_interval self
                             <? Presence.last_update device)
                  (Presence.last_results self))
          ↔ In d (Presence.last_results self)
            ∧ Presence.home_interval self ≠ 0
            ∧ now - Presence.home_interval self < Presence.last_update d)
    as Hiff.
  { rewrite filter_In, Z.ltb_lt. tauto. }
  by destruct (List.filter _ (Presence.last_results self)).
Qed.

Lemma found_devices_In (upper : string → string)
    (result : list (string * Presence.host_info)) (now : Z) d :
  In d (Presence.found_devices upper result now)
  ↔ ∃ ipv4 info address,
      In (ipv4, info) result
      ∧ Presence.status_state info = "up"%string
      ∧ Presence.addresses_mac info = Some address
      ∧ d = Presence.MkDevice (upper address)
              (match Presence.hostnames info with
               | first :: _ => first
               | [] => ipv4
               end) ipv4 now.
Proof.
  unfold Presence.found_devices. rewrite in_flat_map. split.
  - intros ([ipv4 info] & Hin & Hd).
    destruct (String.eqb_spec (Presence.status_state info) "up") as [Hup|Hup];
      simpl in Hd; [|done].
    destruct (Presence.addresses_mac info) as [address|] eqn:Hmac; [|done].
    destruct Hd as [<-|[]]. by exists ipv4, info, address.
  - intros (ipv4 & info & address & Hin & Hup & Hmac & ->).
    exists (ipv4, info). split; [done|].
    rewrite Hup, Hmac. simpl. by left.
Qed.

(** X17.  After a scan that succeeds the results are: the former results
    newer than [home_interval] before the scan began (none when
    [home_interval] is zero), followed by one result for each address that
    is up and has a MAC address, with the MAC address in upper case, the
    first host name (the address when there is none) and the time the scan
    ended.  The other settings, the scan options included, are as before. *)
Theorem successful_scan_keeps_recent_results_and_adds_found
    (upper : string → string)
    (scan : string → string → option (list (string * Presence.host_info)))
    (now1 now2 : Z) (self : Presence.NmapDeviceScanner)
    (result : list (string * Presence.host_info)) :
  scan (String.concat " " (Presence.hosts self))
       (Presence.scan_arguments self now1) = Some result →
  let after := snd (Presence._update_info upper scan now1 now2 self) in
  fst (Presence._update_info upper scan now1 now2 self) = true
  ∧ (∀ d, In d (Presence.last_results after)
          ↔ (In d (Presence.last_results self)
             ∧ Presence.home_interval self ≠ 0
             ∧ now1 - Presence.home_interval self < Presence.last_update d)
            ∨ ∃ ipv4 info address,
                In (ipv4, info) result
                ∧ Presence.status_state info = "up"%string
                ∧ Presence.addresses_mac info = Some address
                ∧ d = Presence.MkDevice (upper address)
                        (match Presence.hostnames info with
                         | first :: _ => first
                         | [] => ipv4
                         end) ipv4 now2)
  ∧ Presence.hosts after = Presence.hosts self
  ∧ Presence.exclude after = Presence.exclude self
  ∧ Presence._options after = Presence._options self
  ∧ Presence.home_interval after = Presence.home_interval self.
Proof.
  intros Hscan after. unfold after, Presence._update_info. rewrite Hscan.
  simpl. split; [done|]. split; [|done].
  intros d. rewrite in_app_iff, kept_results, found_devices_In. done.
Qed.

Lemma successful_scan_keeps_recent_results_and_adds_found_witness :
  let old := Presence.MkDevice "AA:01" "tv" "10.0.0.5" 100 in
  let recent := Presence.MkDevice "AA:02" "phone" "10.0.0.6" 900 in
  let self := Presence.Scanner [old; recent] ["10.0.0.0/24"] [] "-F" 300 in
  let scan := λ _ _ : string,
    Some [("10.0.0.7"%string, Presence.HostInfo "up" [] (Some "aa:03"%string));
          ("10.0.0.8"%string, Presence.HostInfo "down" [] None)] in
  Presence.last_results
    (snd (Presence._update_info
            (λ s, if String.eqb s "aa:03" then "AA:03" else s)%string
            scan 1000 1010 self))
  = [recent; Presence.MkDevice "AA:03" "10.0.0.7" "10.0.0.7" 1010]
  ∧ In recent
      (Presence.last_results
         (snd (Presence._update_info
                 (λ s, if String.eqb s "aa:03" then "AA:03" else s)%string
                 scan 1000 1010 self))).
Proof.
  intros old recent self scan. split; [reflexivity|].
  destruct (successful_scan_keeps_recent_results_and_adds_found
              (λ s, if String.eqb s "aa:03" then "AA:03" else s)%string
              scan 1000 1010 self _ eq_refl)
    as (_ & Hin & _).
  apply Hin. left. split; [right; by left|]. split; [discriminate|].
  vm_compute. reflexivity.
Defined.

Lemma failed_scan_keeps_the_last_results_witness :
  let old := Presence.MkDevice "AA:01" "tv" "10.0.0.5" 100 in
  let self := Presence.Scanner [old] ["10.0.0.0/24"] [] "-F" 300 in
  Presence.scan_devices (λ s, s) (λ _ _, None) 1000 1010 self
  = (["AA:01"%string], self).
Proof.
  intros old self.
  exact (proj2 (failed_scan_keeps_the_last_results (λ s, s) (λ _ _, None)
                  1000 1010 self eq_refl)).
Defined.

(** * Properties of [wifi_rgb_led_strip/main.py] *)

(** X18.  The effect read back from the bulb is the effect that was set:
    the code [turn_on] sends for an effect of [EFFECT_MAP] is read by the
    property [effect] as that effect, and an effect the property reports is
    either ["custom"], for the code 0x60, or an effect of [EFFECT_MAP] with
    the code read. *)
Theorem effect_reads_back_what_turn_on_sets (name : string) (code : Z) :
  (FluxLed.effect_code name = Some code → FluxLed.effect code = Some name)
  ∧ (FluxLed.effect code = Some name →
     (name = "custom"%string ∧ code = FluxLed.EFFECT_CUSTOM_CODE)
     ∨ FluxLed.effect_code name = Some code).
Proof.
  split.
  - unfold FluxLed.effect_code.
    destruct (List.find _ FluxLed.EFFECT_MAP) as [[e c]|] eqn:Hf; [|done].
    simpl. intros Heq. inversion Heq; subst c.
    apply find_some in Hf as [Hin He]. apply String.eqb_eq in He.
    simpl in He. subst e.
    unfold FluxLed.EFFECT_MAP in Hin. simpl in Hin.
    repeat (destruct Hin as [Hin|Hin];
            [inversion Hin; subst; reflexivity|]).
    done.
  - unfold FluxLed.effect.
    destruct (Z.eqb_spec code FluxLed.EFFECT_CUSTOM_CODE) as [->|Hc].
    { intros Heq. inversion Heq. by left. }
    destruct (List.find _ FluxLed.EFFECT_MAP) as [[e c]|] eqn:Hf; [|done].
    simpl. intros Heq. inversion Heq; subst e. right.
    apply find_some in Hf as [Hin He]. apply Z.eqb_eq in He.
    simpl in He. subst c.
    unfold FluxLed.EFFECT_MAP in Hin. simpl in Hin.
    repeat (destruct Hin as [Hin|Hin];
            [inversion Hin; subst; reflexivity|]).
    done.
Qed.

Lemma effect_reads_back_what_turn_on_sets_witness :
  FluxLed.effect_code "colorloop" = Some 0x25
  ∧ FluxLed.effect 0x25 = Some "colorloop"%string.
Proof.
  assert (FluxLed.effect_code "colorloop" = Some 0x25) as H by reflexivity.
  split; [exact H|].
  exact (proj1 (effect_reads_back_what_turn_on_sets "colorloop" 0x25) H).
Defined.

Section LightFacts.

Context {B : Type}.
Variable rgbwcapable : B → bool.
Variable setProtocol : string → B → B.
Variable update_state : B → B.

(** Once there is a bulb, [update] warns no more and keeps the bulb. *)
Lemma updates_connected connections : ∀ self : FluxLed.FluxLight,
  is_Some (FluxLed._bulb self) →
  snd (FluxLed.updates rgbwcapable setProtocol update_state connections self) = 0%nat
  ∧ is_Some (FluxLed._bulb (fst (FluxLed.updates rgbwcapable setProtocol update_state connections self)))
  ∧ FluxLed._mode (fst (FluxLed.updates rgbwcapable setProtocol update_state connections self)) = FluxLed._mode self.
Proof.
  induction connections as [|connection rest IH]; intros self [b Hb].
  { simpl. rewrite Hb. by eauto. }
  cbn [FluxLed.updates]. unfold FluxLed.update. rewrite Hb.
  cbv beta iota zeta.
  match goal with |- context [FluxLed.updates rgbwcapable setProtocol update_state rest ?s] =>
    assert (is_Some (FluxLed._bulb s)) as Hs by (simpl; eauto);
    destruct (IH s Hs) as (Hn & Hb' & Hm);
    destruct (FluxLed.updates rgbwcapable setProtocol update_state rest s) as [self' n'] end.
  simpl in *. by subst.
Qed.

(** Until there is a bulb, [update] warns once at most: not at all when the
    failure has been reported. *)
Lemma updates_disconnected connections : ∀ self : FluxLed.FluxLight,
  FluxLed._bulb self = None →
  (snd (FluxLed.updates rgbwcapable setProtocol update_state connections self)
   ≤ if FluxLed._error_reported self then 0 else 1)%nat
  ∧ (is_Some (FluxLed._bulb (fst (FluxLed.updates rgbwcapable setProtocol update_state connections self)))
     ↔ ∃ bulb, In (Some bulb) connections)
  ∧ (is_Some (FluxLed._bulb (fst (FluxLed.updates rgbwcapable setProtocol update_state connections self))) →
     FluxLed.is_set (FluxLed._mode (fst (FluxLed.updates rgbwcapable setProtocol update_state connections self))) = true).
Proof.
  induction connections as [|connection rest IH]; intros self Hb.
  - simpl. rewrite Hb.
    split; [destruct (FluxLed._error_reported self); lia|].
    split.
    + split; [intros [? ?]; done|intros [? []]].
    + intros [? ?]; done.
  - cbn [FluxLed.updates]. unfold FluxLed.update. rewrite Hb.
    cbv beta iota zeta.
    destruct connection as [bulb|].
    + match goal with |- context [FluxLed.updates rgbwcapable setProtocol update_state rest ?s] =>
        assert (is_Some (FluxLed._bulb s)) as Hs by (simpl; eauto);
        destruct (updates_connected rest s Hs) as (Hn & Hb' & Hm);
        destruct (FluxLed.updates rgbwcapable setProtocol update_state rest s) as [self' n'] end.
      simpl in *. subst n'. split; [lia|].
      split; [split; [intros _; exists bulb; by left|done]|].
      intros _. rewrite Hm. unfold FluxLed._connect. simpl.
      destruct (FluxLed.is_set (FluxLed._mode self)) eqn:Hset; [done|].
      by destruct (rgbwcapable _).
    + destruct (FluxLed._error_reported self) eqn:He; simpl.
      * match goal with |- context [FluxLed.updates rgbwcapable setProtocol update_state rest ?s] =>
          destruct (IH s eq_refl) as (Hn & Hiff & Hmode);
          destruct (FluxLed.updates rgbwcapable setProtocol update_state rest s) as [self' n'] end.
        simpl in *. split; [lia|].
        split; [|done]. rewrite Hiff. split.
        -- intros [b Hin]. exists b. by right.
        -- intros [b [Hin|Hin]]; [done|by exists b].
      * match goal with |- context [FluxLed.updates rgbwcapable setProtocol update_state rest ?s] =>
          destruct (IH s eq_refl) as (Hn & Hiff & Hmode);
          destruct (FluxLed.updates rgbwcapable setProtocol update_state rest s) as [self' n'] end.
        simpl in *. split; [lia|].
        split; [|done]. rewrite Hiff. split.
        -- intros [b Hin]. exists b. by right.
        -- intros [b [Hin|Hin]]; [done|by exists b].
Qed.

(** X19.  From a light just created, any run of [update] calls logs the
    connection warning once at most.  The light is available at the end
    exactly when one of the connections succeeded, and then its mode is
    set. *)
Theorem connection_failure_is_reported_once
    (protocol mode : option string) (connections : list (option B)) :
  let final := fst (FluxLed.updates rgbwcapable setProtocol update_state connections (FluxLed.init protocol mode)) in
  (snd (FluxLed.updates rgbwcapable setProtocol update_state connections (FluxLed.init protocol mode)) ≤ 1)%nat
  ∧ (is_Some (FluxLed._bulb final) ↔ ∃ bulb, In (Some bulb) connections)
  ∧ (is_Some (FluxLed._bulb final) →
     FluxLed.is_set (FluxLed._mode final) = true).
Proof.
  intros final.
  exact (updates_disconnected connections (FluxLed.init protocol mode)
           eq_refl).
Qed.

End LightFacts.

(** * The further properties on the small program *)

Lemma real_method_runs_exactly_when_the_gates_are_open_witness :
  let st := set_clock 104 (snd (call update_10_100 [PObj device_a] ∅ boot)) in
  (self_id every_10_forced_100 < 4)%positive
  ∧ ran (snd (call update_10_100 [PObj device_a] ∅ st)) ≠ ran st.
Proof.
  intros st.
  assert ((self_id every_10_forced_100 < 4)%positive) as H0 by reflexivity.
  split; [exact H0|].
  apply (proj2 (real_method_runs_exactly_when_the_gates_are_open
                  every_10_forced_100 update 4 [PObj device_a] ∅ st H0)).
  exists device_a.
  split; [vm_compute; reflexivity|]. split; [vm_compute; reflexivity|].
  split; [right; vm_compute; reflexivity|].
  intros limit Hlim. injection Hlim as <-. exists device_a.
  split; [vm_compute; reflexivity|]. split; vm_compute; reflexivity.
Defined.

Lemma plain_function_is_throttled_whatever_its_arguments_witness :
  let st1 := snd (call poll_10 [PInt 5] ∅ boot) in
  let st2 := set_clock 8 st1 in
  (m_self poll = None
   ∧ plain_function_name (m_qualname poll) = true
   ∧ call poll_10 [PInt 5] ∅ boot = (Return (PInt 1), st1)
   ∧ ran st1 ≠ ran boot
   ∧ clock st2 - clock st1 ≤ min_time every_10)
  ∧ call poll_10 [PInt 6; PStr "x"] ∅ st2 = (Return PNone, st2).
Proof.
  intros st1 st2.
  assert (call poll_10 [PInt 5] ∅ boot = (Return (PInt 1), st1)) as H1
    by (vm_compute; reflexivity).
  assert (ran st1 ≠ ran boot) as H2 by (vm_compute; discriminate).
  assert (clock st2 - clock st1 ≤ min_time every_10) as H3
    by (vm_compute; discriminate).
  split; [by repeat split|].
  exact (plain_function_is_throttled_whatever_its_arguments
           every_10 poll 9 [PInt 5] ∅ boot (PInt 1) st1
           [PInt 6; PStr "x"] ∅ st2
           ltac:(reflexivity) ltac:(vm_compute; reflexivity) H1 H2
           ltac:(reflexivity) ltac:(vm_compute; reflexivity) H3).
Defined.

Lemma bound_method_is_throttled_on_its_receiver_witness :
  let st1 := snd (call bound_update_10 [] ∅ boot) in
  let st2 := set_clock 9 st1 in
  (limit_no_throttle every_10 = None
   ∧ m_self bound_update = Some device_a
   ∧ call bound_update_10 [] ∅ boot = (Return (PInt 7), st1)
   ∧ ran st1 ≠ ran boot
   ∧ clock st2 - clock st1 ≤ min_time every_10)
  ∧ entry_at device_a 1 st1 = Entry false (Some 3)
  ∧ call bound_update_10 [PObj device_b] ∅ st2 = (Return PNone, st2).
Proof.
  intros st1 st2.
  assert (call bound_update_10 [] ∅ boot = (Return (PInt 7), st1)) as H1
    by (vm_compute; reflexivity).
  assert (ran st1 ≠ ran boot) as H2 by (vm_compute; discriminate).
  assert (clock st2 - clock st1 ≤ min_time every_10) as H3
    by (vm_compute; discriminate).
  split; [by repeat split|].
  exact (bound_method_is_throttled_on_its_receiver
           every_10 bound_update 10 device_a [] ∅ boot (PInt 7) st1
           [PObj device_b] ∅ st2
           ltac:(reflexivity) ltac:(reflexivity) H1 H2
           ltac:(reflexivity) ltac:(vm_compute; reflexivity) H3).
Defined.

Lemma bound_method_with_limit_takes_first_argument_as_host_witness :
  (limit_no_throttle every_10_forced_100 = Some 100
   ∧ m_self bound_update = Some device_a
   ∧ plain_function_name (m_qualname bound_update) = false)
  ∧ top_host (wrapped bound_update_10_100) [PObj device_b] = Some device_a
  ∧ top_host bound_update_10_100 [PObj device_b] = Some device_b
  ∧ call bound_update_10_100 [PInt 5] ∅ boot = (Raise AttributeError, boot).
Proof.
  split; [by repeat split|].
  destruct (bound_method_with_limit_takes_first_argument_as_host
              every_10_forced_100 bound_update 11 100 device_a
              [PObj device_b] ∅ boot
              ltac:(reflexivity) ltac:(reflexivity)
              ltac:(vm_compute; reflexivity)) as (Ha & Hb & _).
  destruct (bound_method_with_limit_takes_first_argument_as_host
              every_10_forced_100 bound_update 11 100 device_a
              [PInt 5] ∅ boot
              ltac:(reflexivity) ltac:(reflexivity)
              ltac:(vm_compute; reflexivity)) as (_ & Hc & Hd).
  split; [exact Ha|]. split; [exact Hb|]. exact (Hd Hc).
Defined.

Lemma method_needs_a_receiver_that_takes_attributes_witness :
  (m_self update = None
   ∧ plain_function_name (m_qualname update) = false
   ∧ ∀ a, PInt 5 ≠ PObj a)
  ∧ call update_10 [PInt 5] forced boot = (Raise AttributeError, boot)
  ∧ top_host update_10 [] = Some 3%positive.
Proof.
  assert (∀ a, PInt 5 ≠ PObj a) as Hv by discriminate.
  split; [by repeat split|].
  exact (method_needs_a_receiver_that_takes_attributes
           every_10 update 3 (PInt 5) [] forced boot
           ltac:(reflexivity) ltac:(vm_compute; reflexivity) Hv).
Defined.

Lemma entry_exists_after_first_attempt_witness :
  top_host connect_10 [PObj device_a] = Some device_a
  ∧ fst (call connect_10 [PObj device_a] ∅ boot) = Raise (Failure 5)
  ∧ get_entry device_a 1 boot = None
  ∧ is_Some (get_entry device_a 1
               (snd (call connect_10 [PObj device_a] ∅ boot))).
Proof.
  assert (top_host connect_10 [PObj device_a] = Some device_a) as Hh
    by (vm_compute; reflexivity).
  split; [exact Hh|]. split; [vm_compute; reflexivity|].
  split; [reflexivity|].
  exact (proj1 (entry_exists_after_first_attempt every_10 broken 7
                  [PObj device_a] ∅ boot device_a Hh)).
Defined.

Lemma definitions_do_not_interfere_witness :
  let st1 := snd (call update_10 [PObj device_a] ∅ boot) in
  (self_id every_10_forced_100 ≠ self_id every_10
   ∧ self_id every_10_forced_100 ≠ 3%positive
   ∧ 4%positive ≠ self_id every_10
   ∧ 4%positive ≠ 3%positive)
  ∧ get_entry device_a 2 st1 = None
  ∧ fst (call update_10_100 [PObj device_a] ∅ st1) = Return (PInt 7).
Proof.
  intros st1.
  assert (self_id every_10_forced_100 ≠ self_id every_10) as H1
    by discriminate.
  assert (self_id every_10_forced_100 ≠ 3%positive) as H2 by discriminate.
  assert (4%positive ≠ self_id every_10) as H3 by discriminate.
  assert (4%positive ≠ 3%positive) as H4 by discriminate.
  split; [done|].
  destruct (definitions_do_not_interfere every_10 update 3 [PObj device_a] ∅
              every_10_forced_100 update 4 [PObj device_a] ∅ boot
              H1 H2 H3 H4) as (Ha & Hb & _).
  split; [exact (proj1 (Ha device_a))|].
  etransitivity; [exact Hb|]. vm_compute. reflexivity.
Defined.


Lemma stacked_throttle_returns_plain_none_witness :
  let every_5 := Throttle_init 20 5 None in
  let stacked := Throttle_call every_5 async_update_10 21 in
  let st := set_clock 2 (snd (call stacked [PObj device_a] ∅ boot)) in
  (m_body async_update = AsyncBody 2
   ∧ top_host stacked [PObj device_a] = Some device_a
   ∧ gate_open every_5 ∅ (entry_at device_a 20 st) (clock st) = false)
  ∧ fst (call stacked [PObj device_a] ∅ boot) = Return (PCoro 0)
  ∧ call stacked [PObj device_a] ∅ st = (Return PNone, st).
Proof.
  intros every_5 stacked st.
  assert (top_host stacked [PObj device_a] = Some device_a) as Hh
    by (vm_compute; reflexivity).
  assert (gate_open every_5 ∅ (entry_at device_a 20 st) (clock st) = false)
    as Hg by (vm_compute; reflexivity).
  split; [by repeat split|]. split; [vm_compute; reflexivity|].
  exact (proj2 (stacked_throttle_returns_plain_none every_10 every_5
                  async_update 8 21 2 [PObj device_a] ∅ st device_a
                  ltac:(reflexivity) Hh (or_intror Hg))).
Defined.
